(** * layer.utils.grpc.channel: the gRPC channel factory

    A shallow embedding of [src/layer/utils/grpc/channel.py] and the
    properties of it that the specification states.

    Python values are modelled as follows: [str] is [string] (its UTF-8
    bytes), [bytes] is [list byte], [int] is [Z], [Optional[T]] is
    [option T], a raised exception is the left injection of a sum, and a
    mutable [list] object is a cell of a heap indexed by its address. *)

From Stdlib Require Import ZArith String Ascii List QArith Qminmax Lia.
From stdpp Require Import base list strings pretty.

Set Warnings "-register-all".

(** ** Python values and exceptions *)

Definition bytes : Type := list Byte.byte.

(** [str.encode()]: the UTF-8 bytes of the text. *)
Definition encode (s : string) : bytes := list_byte_of_string s.

(** The exception classes that can reach this module. [ConnectionError]
    is Python's builtin (a subclass of [OSError]); [CertificateParseError]
    is a name of the specification's taxonomy, which no code path of the
    module or of its libraries raises. *)
Inductive exn : Type :=
| ValueError
| IndexError
| TypeError
| OSError
| ConnectionError
| SSLError
| ExtensionNotFound
| DuplicateExtension
| CertificateParseError.

Global Instance exn_eq_dec : EqDecision exn.
Proof. solve_decision. Defined.

Definition result (A : Type) : Type := exn + A.

Definition raise {A : Type} (e : exn) : result A := inl e.

Global Instance result_ret : MRet result := fun A a => inr a.
Global Instance result_bind : MBind result := fun A B f m =>
  match m with
  | inl e => inl e
  | inr a => f a
  end.

Definition nl : string := String "010"%char EmptyString.

(** [sep.join(parts)] *)
Fixpoint str_join (sep : string) (parts : list string) : string :=
  match parts with
  | [] => ""
  | [p] => p
  | p :: rest => p +:+ sep +:+ str_join sep rest
  end.

(** [s.split(":", 1)]: at most one split, at the first colon. *)
Fixpoint str_split1 (s : string) : list string :=
  match s with
  | EmptyString => [EmptyString]
  | String c rest =>
      if Ascii.eqb c ":"%char then [EmptyString; rest]
      else match str_split1 rest with
           | hd :: tl => String c hd :: tl
           | [] => [String c EmptyString]
           end
  end.

(** [a, b = xs]: unpacking into two targets raises [ValueError] unless
    the sequence has exactly two items. *)
Definition unpack2 {A : Type} (xs : list A) : result (A * A) :=
  match xs with
  | [a; b] => inr (a, b)
  | _ => raise ValueError
  end.

(** [xs[0]] *)
Definition index0 {A : Type} (xs : list A) : result A :=
  match xs with
  | x :: _ => inr x
  | [] => raise IndexError
  end.

(** Truth value of an [Optional[str]]: [None] and the empty string are
    false. *)
Definition truthy (o : option string) : bool :=
  match o with
  | None => false
  | Some EmptyString => false
  | Some (String _ _) => true
  end.

(** ** The [cryptography.x509] objects the module reads *)

Inductive GeneralName : Type :=
| DNSName (value : string)
| RFC822Name (value : string)
| UniformResourceIdentifier (value : string)
| IPAddress (value : string)
| OtherName (value : string).

Inductive Extension : Type :=
| SubjectAlternativeName (names : list GeneralName)
| UnrecognizedExtension (oid : string).

(** A parsed certificate. Its [extensions] are decoded on first access,
    which can itself raise. *)
Record Certificate : Type := {
  extensions : result (list Extension)
}.

Definition is_san (x : Extension) : bool :=
  match x with
  | SubjectAlternativeName _ => true
  | UnrecognizedExtension _ => false
  end.

(** [extensions.get_extension_for_oid(ExtensionOID.SUBJECT_ALTERNATIVE_NAME).value] *)
Fixpoint get_extension_for_oid_SAN (exts : list Extension)
  : result (list GeneralName) :=
  match exts with
  | [] => raise ExtensionNotFound
  | SubjectAlternativeName names :: _ => inr names
  | UnrecognizedExtension _ :: rest => get_extension_for_oid_SAN rest
  end.

(** [san.get_values_for_type(x509.DNSName)] *)
Fixpoint get_values_for_type_DNSName (names : list GeneralName) : list string :=
  match names with
  | [] => []
  | DNSName v :: rest => v :: get_values_for_type_DNSName rest
  | _ :: rest => get_values_for_type_DNSName rest
  end.

(** ** The [ssl] module: PEM encoding *)

Definition b64_alphabet : string :=
  "ABCDEFGHIJKLMNOPQRSTUVWXYZabcdefghijklmnopqrstuvwxyz0123456789+/".

Definition b64_char (n : N) : ascii :=
  match String.get (N.to_nat n) b64_alphabet with
  | Some c => c
  | None => "="%char
  end.

(** [base64.standard_b64encode] *)
Fixpoint standard_b64encode (bs : bytes) : string :=
  match bs with
  | [] => ""
  | [a] =>
      let x := Byte.to_N a in
      String (b64_char (x / 4))
        (String (b64_char ((x mod 4) * 16)) "==")
  | [a; b] =>
      let x := Byte.to_N a in
      let y := Byte.to_N b in
      String (b64_char (x / 4))
        (String (b64_char ((x mod 4) * 16 + y / 16))
           (String (b64_char ((y mod 16) * 4)) "="))
  | a :: b :: c :: rest =>
      let x := Byte.to_N a in
      let y := Byte.to_N b in
      let z := Byte.to_N c in
      String (b64_char (x / 4))
        (String (b64_char ((x mod 4) * 16 + y / 16))
           (String (b64_char ((y mod 16) * 4 + z / 64))
              (String (b64_char (z mod 64)) (standard_b64encode rest))))
  end%N.

(** [[f[i:i+64] for i in range(0, len(f), 64)]]; the fuel bounds the
    number of lines, and [String.length f] is always enough. *)
Fixpoint lines64 (fuel : nat) (f : string) : list string :=
  match fuel with
  | O => []
  | S fuel' =>
      match f with
      | EmptyString => []
      | _ => String.substring 0 64 f
             :: lines64 fuel' (String.substring 64 (String.length f - 64) f)
      end
  end.

Definition PEM_HEADER : string := "-----BEGIN CERTIFICATE-----".
Definition PEM_FOOTER : string := "-----END CERTIFICATE-----".

(** [ssl.DER_cert_to_PEM_cert] *)
Definition DER_cert_to_PEM_cert (der_cert_bytes : bytes) : string :=
  let f := standard_b64encode der_cert_bytes in
  let ss := [PEM_HEADER] ++ lines64 (String.length f) f ++ [PEM_FOOTER +:+ nl] in
  str_join nl ss.

(** ** What lies outside the repository

    The module's results depend on the network peer, on the platform's
    trust store and on library code. A [Runtime] fixes their behaviour;
    every theorem below holds for all of them. *)
Record Runtime : Type := {
  (** [int(port)] on a [str]. *)
  int_of_str : string -> result Z;
  (** [ssl.get_server_certificate((host, port))]: handshake with the peer
      and return its leaf certificate in PEM. *)
  get_server_certificate : string -> Z -> result string;
  (** [x509.load_pem_x509_certificate(data)] *)
  load_pem_x509_certificate : bytes -> result Certificate;
  (** [ssl.create_default_context().get_ca_certs(binary_form=True)] *)
  get_ca_certs : list bytes
}.

(** ** [GRPCSSLConfig] *)

Record GRPCSSLConfig : Type := {
  cadata : option bytes;
  hostname_override : option string
}.

Section TrustResolution.

Variable rt : Runtime.

Definition _load_default_ssl_certs : bytes :=
  let der_certs := get_ca_certs rt in
  let pem_certs := map DER_cert_to_PEM_cert der_certs in
  encode (str_join nl pem_certs).

Definition create_grpc_ssl_config (address : string)
    (do_verify_ssl do_force_cadata_load : bool) : result GRPCSSLConfig :=
  let cadata0 : option bytes := None in
  if do_verify_ssl then
    let cadata1 :=
      if do_force_cadata_load then Some _load_default_ssl_certs else cadata0 in
    mret {| cadata := cadata1; hostname_override := None |}
  else
    '(host, port) ← unpack2 (str_split1 address);
    port_number ← int_of_str rt port;
    pem ← get_server_certificate rt host port_number;
    let cadata1 := encode pem in
    cert ← load_pem_x509_certificate rt cadata1;
    exts ← extensions cert;
    san ← get_extension_for_oid_SAN exts;
    hostname ← index0 (get_values_for_type_DNSName san);
    mret {| cadata := Some cadata1; hostname_override := Some hostname |}.

End TrustResolution.

(** ** Mutable list objects

    [options] is a Python [list] passed by reference, so list objects
    live in a heap and a variable holds an address. A computation maps a
    heap to an outcome and the heap it leaves, also when it raises; it is
    stuck ([None]) only on an address the heap does not hold, which no
    Python program can produce. *)

Inductive OptionValue : Type :=
| VStr (s : string)
| VInt (n : Z).

(** One channel argument: [Tuple[str, Union[str, int]]]. *)
Definition ChannelArgument : Type := string * OptionValue.

Abbreviation loc := nat (only parsing).
Abbreviation heap := (list (list ChannelArgument)) (only parsing).

Definition M (A : Type) : Type := heap -> option (result A * heap).

Global Instance M_ret : MRet M := fun A a h => Some (inr a, h).
Global Instance M_bind : MBind M := fun A B f m h =>
  match m h with
  | None => None
  | Some (inl e, h') => Some (inl e, h')
  | Some (inr a, h') => f a h'
  end.

(** A pure computation that may raise. *)
Definition lift {A : Type} (r : result A) : M A := fun h => Some (r, h).

(** A list display [[x1, ..., xn]]: a new object. *)
Definition new_list (xs : list ChannelArgument) : M loc :=
  fun h => Some (inr (length h), h ++ [xs]).

(** [l.copy()]: a new object with the same items. *)
Definition list_copy (l : loc) : M loc :=
  fun h =>
    match h !! l with
    | Some xs => Some (inr (length h), h ++ [xs])
    | None => None
    end.

(** [l.append(x)]: in place. *)
Definition list_append (l : loc) (x : ChannelArgument) : M unit :=
  fun h =>
    match h !! l with
    | Some xs => Some (inr tt, <[l := xs ++ [x]]> h)
    | None => None
    end.

(** The items of [l], as a callee that iterates over it sees them. *)
Definition list_items (l : loc) : M (list ChannelArgument) :=
  fun h =>
    match h !! l with
    | Some xs => Some (inr xs, h)
    | None => None
    end.

(** ** [json.dumps] *)

Inductive json : Type :=
| JInt (n : Z)
| JStr (s : string)
| JList (items : list json)
| JDict (items : list (string * json)).

Definition hex_digit (n : N) : ascii :=
  match String.get (N.to_nat n) "0123456789abcdef" with
  | Some c => c
  | None => "0"%char
  end.

(** One character of [json.encoder.py_encode_basestring_ascii]. The text
    serialised here is ASCII; a character above it is written as the
    escape of its own code. *)
Definition escape_char (c : ascii) : string :=
  let n := N_of_ascii c in
  if N.eqb n 34 then String "\"%char (String c EmptyString)
  else if N.eqb n 92 then "\\"
  else if N.eqb n 8 then "\b"
  else if N.eqb n 12 then "\f"
  else if N.eqb n 10 then "\n"
  else if N.eqb n 13 then "\r"
  else if N.eqb n 9 then "\t"
  else if (N.leb 32 n && N.leb n 126)%bool then String c EmptyString
  else "\u00" +:+ String (hex_digit (n / 16)) (String (hex_digit (n mod 16)) EmptyString).

Definition dquote : string := String (ascii_of_nat 34) EmptyString.

Fixpoint escape_chars (s : string) : string :=
  match s with
  | EmptyString => EmptyString
  | String c rest => escape_char c +:+ escape_chars rest
  end.

Definition encode_basestring_ascii (s : string) : string :=
  dquote +:+ escape_chars s +:+ dquote.

(** [json.dumps(v)] with the default separators [", "] and [": "]; a
    [dict] is written in insertion order. *)
Fixpoint json_dumps (v : json) : string :=
  match v with
  | JInt n => pretty n
  | JStr s => encode_basestring_ascii s
  | JList items => "[" +:+ str_join ", " (map json_dumps items) +:+ "]"
  | JDict items =>
      "{" +:+
      str_join ", "
        (map (fun kv => match kv with
                        | (k, x) => encode_basestring_ascii k +:+ ": " +:+ json_dumps x
                        end) items)
      +:+ "}"
  end.

(** ** The [grpc] objects the factory builds

    The transport is outside the repository; a channel is represented by
    the calls that built it. It records what the factory hands to [grpc];
    whether [grpc] accepts it is not modelled (it refuses, for instance,
    an integer option that does not fit a C [int]), so a channel value
    here says what was passed on, not that the library call returned. *)

Inductive ClientInterceptor : Type :=
| RequestIdInterceptor
| TrackingClientInterceptor
| GRPCErrorClientInterceptor
| LogRpcCallsInterceptor (logs_file_path : string).

Inductive ChannelCredentials : Type :=
| ssl_channel_credentials (root_certificates : option bytes).

Inductive CallCredentials : Type :=
| access_token_call_credentials (access_token : string).

Inductive CompositeCredentials : Type :=
| composite_channel_credentials (channel_credentials : ChannelCredentials)
    (call_credentials : CallCredentials).

Inductive Channel : Type :=
| secure_channel (target : string) (credentials : CompositeCredentials)
    (options : list ChannelArgument)
| InterceptedChannel (channel : Channel) (interceptor : ClientInterceptor).

(** [grpc.intercept_channel(channel, *interceptors)]: the library wraps
    the channel once per interceptor, last listed first, so that the
    first listed interceptor ends up outermost. *)
Definition intercept_channel (channel : Channel)
    (interceptors : list ClientInterceptor) : Channel :=
  fold_left InterceptedChannel (rev interceptors) channel.

(** The interceptors of a channel in the order in which an outgoing call
    reaches them: the outermost wrapper first. *)
Fixpoint call_order (ch : Channel) : list ClientInterceptor :=
  match ch with
  | secure_channel _ _ _ => []
  | InterceptedChannel inner i => i :: call_order inner
  end.

(** The options the transport was opened with. *)
Fixpoint transport_options (ch : Channel) : list ChannelArgument :=
  match ch with
  | secure_channel _ _ options => options
  | InterceptedChannel inner _ => transport_options inner
  end.

(** The credentials the transport was opened with. *)
Fixpoint transport_credentials (ch : Channel) : CompositeCredentials :=
  match ch with
  | secure_channel _ credentials _ => credentials
  | InterceptedChannel inner _ => transport_credentials inner
  end.

(** ** [create_grpc_channel] *)

(** The dictionary literal given to [json.dumps]. *)
Definition retry_config : json :=
  JDict
    [("methodConfig",
      JList
        [JDict
           [("name", JList [JDict []]);
            ("retryPolicy",
             JDict
               [("maxAttempts", JInt 5);
                ("initialBackoff", JStr "0.3s");
                ("maxBackoff", JStr "30s");
                ("backoffMultiplier", JInt 3);
                ("retryableStatusCodes", JList [JStr "UNAVAILABLE"])])]])].

Section ChannelFactory.

Variable rt : Runtime.

Definition create_grpc_channel (address access_token : string)
    (do_verify_ssl : bool) (logs_file_path : string)
    (options : option loc) : M Channel :=
  options ← match options with
            | None => new_list []
            | Some l => mret l
            end;
  options ← list_copy options;
  ssl_config ← lift (create_grpc_ssl_config rt address do_verify_ssl false);
  (if truthy (hostname_override ssl_config) then
     list_append options
       ("grpc.ssl_target_name_override",
        VStr (default EmptyString (hostname_override ssl_config)))
   else mret tt);;
  let json_config := json_dumps retry_config in
  list_append options ("grpc.enable_retries", VInt 1);;
  list_append options ("grpc.service_config", VStr json_config);;
  list_append options ("grpc.keepalive_time_ms", VInt 60000);;
  list_append options ("grpc.keepalive_timeout_ms", VInt 5000);;
  list_append options ("grpc.keepalive_permit_without_calls", VInt 1);;
  list_append options ("grpc.http2.max_pings_without_data", VInt 0);;
  let credentials := ssl_channel_credentials (cadata ssl_config) in
  let client_interceptors :=
    [RequestIdInterceptor;
     TrackingClientInterceptor;
     GRPCErrorClientInterceptor;
     LogRpcCallsInterceptor logs_file_path] in
  passed ← list_items options;
  mret
    (intercept_channel
       (secure_channel address
          (composite_channel_credentials credentials
             (access_token_call_credentials access_token))
          passed)
       client_interceptors).

End ChannelFactory.

(** ** The retry policy as the transport reads it

    The service config is read back by the gRPC core. Under its retry
    design (gRFC A6) the delay before the n-th retry is drawn from
    [0, min(initialBackoff * backoffMultiplier^(n-1), maxBackoff)], and
    [maxAttempts] counts the original call too. *)

Record RetryPolicy : Type := {
  maxAttempts : Z;
  initialBackoff : Q;
  maxBackoff : Q;
  backoffMultiplier : Q;
  retryableStatusCodes : list json
}.

Fixpoint dict_get (k : string) (items : list (string * json)) : option json :=
  match items with
  | [] => None
  | (k', v) :: rest => if String.eqb k k' then Some v else dict_get k rest
  end.

Definition digit_of (c : ascii) : option Z :=
  let n := Z.of_N (N_of_ascii c) in
  if ((48 <=? n) && (n <=? 57))%Z then Some (n - 48)%Z else None.

(** A duration in the JSON form of a protobuf [Duration]: decimal
    seconds followed by [s]. [num / den] is the value read so far and
    [frac] tells whether the point has been passed. *)
Fixpoint parse_duration_from (s : string) (num : Z) (den : positive)
    (frac : bool) : option Q :=
  match s with
  | EmptyString => None
  | String c rest =>
      match digit_of c with
      | Some d =>
          parse_duration_from rest (num * 10 + d)%Z
            (if frac then (den * 10)%positive else den) frac
      | None =>
          if Ascii.eqb c "."%char then
            if frac then None else parse_duration_from rest num den true
          else if Ascii.eqb c "s"%char then
            match rest with
            | EmptyString => Some (num # den)
            | _ => None
            end
          else None
      end
  end.

Definition parse_duration (s : string) : option Q :=
  parse_duration_from s 0 1 false.

(** [methodConfig[0].retryPolicy] of a service config. *)
Definition retry_policy_of (config : json) : option RetryPolicy :=
  match config with
  | JDict top =>
      match dict_get "methodConfig" top with
      | Some (JList (JDict method :: _)) =>
          match dict_get "retryPolicy" method with
          | Some (JDict fields) =>
              match dict_get "maxAttempts" fields,
                    dict_get "initialBackoff" fields,
                    dict_get "maxBackoff" fields,
                    dict_get "backoffMultiplier" fields,
                    dict_get "retryableStatusCodes" fields with
              | Some (JInt n), Some (JStr i), Some (JStr m), Some (JInt k),
                Some (JList codes) =>
                  i' ← parse_duration i;
                  m' ← parse_duration m;
                  Some {| maxAttempts := n;
                          initialBackoff := i';
                          maxBackoff := m';
                          backoffMultiplier := inject_Z k;
                          retryableStatusCodes := codes |}
              | _, _, _, _, _ => None
              end
          | _ => None
          end
      | _ => None
      end
  | _ => None
  end.

(** The longest delay before retry number [k + 1]. *)
Definition backoff_ceiling (p : RetryPolicy) (k : nat) : Q :=
  Qmin (maxBackoff p) (initialBackoff p * backoffMultiplier p ^ Z.of_nat k).

(** The latest start of attempt number [n] (from 1), measured from the
    first attempt and not counting the time the attempts themselves
    take: the sum of the delays before it. *)
Definition latest_start (p : RetryPolicy) (n : nat) : Q :=
  fold_right Qplus 0%Q (map (backoff_ceiling p) (seq 0 (n - 1))).

(** ** Reference definitions for the statements below *)

(** The caller's list as the call finds it: [None] stands for the
    default, an empty list. *)
Definition caller_options (h : heap) (options : option loc)
  : option (list ChannelArgument) :=
  match options with
  | None => Some []
  | Some l => h !! l
  end.

(** The heap once the factory has bound [options] to a list object. *)
Definition with_default (h : heap) (options : option loc) : heap :=
  match options with
  | None => h ++ [[]]
  | Some _ => h
  end.

Definition contains_colon (s : string) : bool :=
  existsb (Ascii.eqb ":"%char) (list_ascii_of_string s).

Definition is_dns (n : GeneralName) : bool :=
  match n with
  | DNSName _ => true
  | _ => false
  end.

(** The retry policy wire format in the specification's words:
    [{methodConfig: [{name: [{}], retryPolicy: {...}}]}]. *)
Definition retry_policy_document (max_attempts : Z)
    (initial_backoff max_backoff : string) (backoff_multiplier : Z)
    (retryable_status_codes : list string) : json :=
  JDict
    [("methodConfig",
      JList
        [JDict
           [("name", JList [JDict []]);
            ("retryPolicy",
             JDict
               [("maxAttempts", JInt max_attempts);
                ("initialBackoff", JStr initial_backoff);
                ("maxBackoff", JStr max_backoff);
                ("backoffMultiplier", JInt backoff_multiplier);
                ("retryableStatusCodes",
                 JList (map JStr retryable_status_codes))])]])].

Definition quoted (s : string) : string := dquote +:+ s +:+ dquote.

(** The text of the serialised policy, character for character. *)
Definition retry_policy_text : string :=
  "{" +:+ quoted "methodConfig" +:+ ": [{" +:+ quoted "name" +:+ ": [{}], "
  +:+ quoted "retryPolicy" +:+ ": {" +:+ quoted "maxAttempts" +:+ ": 5, "
  +:+ quoted "initialBackoff" +:+ ": " +:+ quoted "0.3s" +:+ ", "
  +:+ quoted "maxBackoff" +:+ ": " +:+ quoted "30s" +:+ ", "
  +:+ quoted "backoffMultiplier" +:+ ": 3, "
  +:+ quoted "retryableStatusCodes" +:+ ": [" +:+ quoted "UNAVAILABLE"
  +:+ "]}}]}".

(** The entries every channel gets, in the order of section 4.2, items 2
    to 4, of the specification. *)
Definition fixed_options : list ChannelArgument :=
  [("grpc.enable_retries", VInt 1);
   ("grpc.service_config", VStr retry_policy_text);
   ("grpc.keepalive_time_ms", VInt 60000);
   ("grpc.keepalive_timeout_ms", VInt 5000);
   ("grpc.keepalive_permit_without_calls", VInt 1);
   ("grpc.http2.max_pings_without_data", VInt 0)].

(** The hostname-override entry: present for a non-empty override. *)
Definition override_options (o : option string) : list ChannelArgument :=
  match o with
  | Some (String c s) => [("grpc.ssl_target_name_override", VStr (String c s))]
  | _ => []
  end.

(** A PEM block: the certificate header line, a body, the footer line. *)
Definition is_pem_block (b : string) : Prop :=
  exists body, b = PEM_HEADER +:+ nl +:+ body +:+ PEM_FOOTER +:+ nl.

(** *** The stages of certificate pinning

    What the peer and the libraries did, stated on the runtime and not
    through the module's own functions. *)

(** [address] reads [host:port] with [port] the integer [n]. *)
Definition endpoint_of (rt : Runtime) (address host : string) (n : Z) : Prop :=
  exists port, address = host +:+ ":" +:+ port /\
    contains_colon host = false /\ int_of_str rt port = inr n.

(** The endpoint was reached and handed over its leaf certificate. *)
Definition fetched (rt : Runtime) (address pem : string) : Prop :=
  exists host n, endpoint_of rt address host n /\
    get_server_certificate rt host n = inr pem.

(** The fetched certificate parsed, with extensions [exts]. *)
Definition parsed (rt : Runtime) (address pem : string)
    (exts : list Extension) : Prop :=
  fetched rt address pem /\
  exists cert, load_pem_x509_certificate rt (encode pem) = inr cert /\
    extensions cert = inr exts.

(** [names] are the entries of the Subject Alternative Name extension. *)
Definition san_of (exts : list Extension) (names : list GeneralName) : Prop :=
  exists before after, exts = before ++ SubjectAlternativeName names :: after /\
    Forall (fun x => is_san x = false) before.

(** [d] is the first DNS-type entry of [names]. *)
Definition first_dns (names : list GeneralName) (d : string) : Prop :=
  exists before after, names = before ++ DNSName d :: after /\
    Forall (fun n => is_dns n = false) before.

(** Every way pinning can fail, with the exception that escapes. *)
Inductive pinning_failure (rt : Runtime) (address : string) : exn -> Prop :=
| no_colon :
    contains_colon address = false ->
    pinning_failure rt address ValueError
| bad_port host port e :
    address = host +:+ ":" +:+ port -> contains_colon host = false ->
    int_of_str rt port = inl e ->
    pinning_failure rt address e
| retrieval_failed host n e :
    endpoint_of rt address host n ->
    get_server_certificate rt host n = inl e ->
    pinning_failure rt address e
| parse_failed pem e :
    fetched rt address pem ->
    load_pem_x509_certificate rt (encode pem) = inl e ->
    pinning_failure rt address e
| extensions_failed pem cert e :
    fetched rt address pem ->
    load_pem_x509_certificate rt (encode pem) = inr cert ->
    extensions cert = inl e ->
    pinning_failure rt address e
| no_san pem exts :
    parsed rt address pem exts ->
    Forall (fun x => is_san x = false) exts ->
    pinning_failure rt address ExtensionNotFound
| no_dns pem exts names :
    parsed rt address pem exts -> san_of exts names ->
    Forall (fun n => is_dns n = false) names ->
    pinning_failure rt address IndexError.

(** *** Reading a channel back *)

(** The address the transport was opened to. *)
Fixpoint transport_target (ch : Channel) : string :=
  match ch with
  | secure_channel target _ _ => target
  | InterceptedChannel inner _ => transport_target inner
  end.

(** The value of the last entry with key [k], the one a reader that lets
    later entries win ends up with; [None] when no entry has the key. *)
Fixpoint last_value (k : string) (opts : list ChannelArgument)
  : option OptionValue :=
  match opts with
  | [] => None
  | (k', v) :: rest =>
      match last_value k rest with
      | Some w => Some w
      | None => if String.eqb k' k then Some v else None
      end
  end.

(** *** Reading a bundle back *)

(** Position of the first [c] in [s], counted from [i]. *)
Fixpoint index_in (c : ascii) (s : string) (i : N) : N :=
  match s with
  | EmptyString => i
  | String x rest => if Ascii.eqb x c then i else index_in c rest (i + 1)
  end.

(** The sextet a base64 character stands for. *)
Definition b64_index (c : ascii) : N := index_in c b64_alphabet 0.

(** The byte of value [n], for [n] below 256. *)
Definition byte_of_N (n : N) : Byte.byte :=
  match Byte.of_N n with
  | Some b => b
  | None => Byte.x00
  end.

(** The inverse of [standard_b64encode], four characters at a time. *)
Fixpoint standard_b64decode (s : string) : bytes :=
  match s with
  | String a (String b (String c (String d rest))) =>
      let p := b64_index a in
      let q := b64_index b in
      let r := b64_index c in
      let t := b64_index d in
      if Ascii.eqb c "="%char then [byte_of_N (p * 4 + q / 16)]
      else if Ascii.eqb d "="%char then
        [byte_of_N (p * 4 + q / 16); byte_of_N ((q mod 16) * 16 + r / 4)]
      else
        byte_of_N (p * 4 + q / 16)
        :: byte_of_N ((q mod 16) * 16 + r / 4)
        :: byte_of_N ((r mod 4) * 64 + t)
        :: standard_b64decode rest
  | _ => []
  end%N.

(** Whether the character [c] occurs in [s]. *)
Fixpoint occurs (c : ascii) (s : string) : bool :=
  match s with
  | EmptyString => false
  | String x rest => (Ascii.eqb x c || occurs c rest)%bool
  end.

(** [s] without its line feeds. *)
Fixpoint remove_newlines (s : string) : string :=
  match s with
  | EmptyString => EmptyString
  | String x rest =>
      if Ascii.eqb x "010"%char then remove_newlines rest
      else String x (remove_newlines rest)
  end.

(** PEM blocks with bodies [bodies], written without line feeds. *)
Fixpoint blocks_text (bodies : list string) : string :=
  match bodies with
  | [] => EmptyString
  | f :: rest => PEM_HEADER +:+ f +:+ PEM_FOOTER +:+ blocks_text rest
  end.

(** What the decoding argument needs of the character for sextet [n]. *)
Definition sextet_ok (n : N) : bool :=
  (N.eqb (b64_index (b64_char n)) n
   && negb (Ascii.eqb (b64_char n) "="%char)
   && negb (Ascii.eqb (b64_char n) "-"%char)
   && negb (Ascii.eqb (b64_char n) "010"%char))%bool.

(** ** Sample runtimes *)

Fixpoint decimal_from (s : string) (acc : Z) : result Z :=
  match s with
  | EmptyString => inr acc
  | String c rest =>
      match digit_of c with
      | Some d => decimal_from rest (acc * 10 + d)%Z
      | None => raise ValueError
      end
  end.

(** [int] on plain decimal digits, which is all the samples use. *)
Definition int_of_decimal (s : string) : result Z :=
  match s with
  | EmptyString => raise ValueError
  | _ => decimal_from s 0
  end.

Definition sample_pem : string :=
  DER_cert_to_PEM_cert (encode "leaf certificate of self-signed.local").

Definition sample_certificate (first_dns : string) : Certificate :=
  {| extensions :=
       inr [UnrecognizedExtension "2.5.29.19";
            SubjectAlternativeName
              [IPAddress "10.0.0.7"; DNSName first_dns;
               DNSName "alt.layer.internal"]] |}.

(** A peer at [self-signed.local:443] presenting [cert], and a trust
    store holding [roots]. *)
Definition sample_runtime (cert : Certificate) (roots : list bytes) : Runtime :=
  {| int_of_str := int_of_decimal;
     get_server_certificate := fun host port =>
       if (String.eqb host "self-signed.local" && (port =? 443)%Z)%bool
       then inr sample_pem else raise ConnectionError;
     load_pem_x509_certificate := fun data =>
       if String.eqb (string_of_list_byte data) sample_pem
       then inr cert else raise ValueError;
     get_ca_certs := roots |}.

Definition pinned_runtime : Runtime :=
  sample_runtime (sample_certificate "layer.internal")
    [encode "root one"; encode "root two"].

Definition empty_name_runtime : Runtime :=
  sample_runtime (sample_certificate "") [encode "root one"].

Definition empty_store_runtime : Runtime :=
  sample_runtime (sample_certificate "layer.internal") [].

Definition no_san_runtime : Runtime :=
  sample_runtime {| extensions := inr [UnrecognizedExtension "2.5.29.19"] |} [].

(** * Properties *)

(** ** Strings and sequences *)

Example split_host_port :
  str_split1 "example.com:443" = ["example.com"; "443"].
Proof. reflexivity. Qed.

Example split_second_colon_kept : str_split1 "a:b:c" = ["a"; "b:c"].
Proof. reflexivity. Qed.

Example split_no_colon : str_split1 "localhost" = ["localhost"].
Proof. reflexivity. Qed.

Example b64_three_bytes : standard_b64encode (encode "Man") = "TWFu".
Proof. reflexivity. Qed.

Example b64_two_bytes : standard_b64encode (encode "Ma") = "TWE=".
Proof. reflexivity. Qed.

Example b64_one_byte : standard_b64encode (encode "M") = "TQ==".
Proof. reflexivity. Qed.

Example pem_of_three_bytes :
  DER_cert_to_PEM_cert (encode "Man") =
  "-----BEGIN CERTIFICATE-----" +:+ nl +:+ "TWFu" +:+ nl +:+
  "-----END CERTIFICATE-----" +:+ nl.
Proof. reflexivity. Qed.

Example dumps_nested :
  json_dumps (JDict [("a", JList [JInt 1; JInt (-2)]); ("b", JDict [])]) =
  "{" +:+ quoted "a" +:+ ": [1, -2], " +:+ quoted "b" +:+ ": {}}".
Proof. vm_compute. reflexivity. Qed.

Example durations_read :
  parse_duration "0.3s" = Some (3 # 10) /\ parse_duration "30s" = Some (30 # 1) /\
  parse_duration "30" = None.
Proof. repeat split; reflexivity. Qed.

Lemma append_cons (c : ascii) (s t : string) :
  String c s +:+ t = String c (s +:+ t).
Proof. reflexivity. Qed.

Lemma contains_colon_cons (c : ascii) (s : string) :
  contains_colon (String c s) = (Ascii.eqb ":"%char c || contains_colon s)%bool.
Proof. reflexivity. Qed.

Lemma str_split1_join (host port : string) :
  contains_colon host = false ->
  str_split1 (host +:+ ":" +:+ port) = [host; port].
Proof.
  induction host as [|c host IH]; intros Hc.
  - reflexivity.
  - rewrite contains_colon_cons in Hc.
    apply orb_false_iff in Hc as [Hc1 Hc2].
    rewrite append_cons. simpl str_split1.
    rewrite Ascii.eqb_sym, Hc1, (IH Hc2). reflexivity.
Qed.

Lemma str_split1_cases (s : string) :
  (contains_colon s = false /\ str_split1 s = [s]) \/
  (exists host port, s = host +:+ ":" +:+ port /\
     contains_colon host = false /\ str_split1 s = [host; port]).
Proof.
  induction s as [|c s IH].
  - left. split; reflexivity.
  - rewrite contains_colon_cons. simpl str_split1.
    rewrite (Ascii.eqb_sym c). destruct (Ascii.eqb ":"%char c) eqn:Hc.
    + right. exists EmptyString, s. apply Ascii.eqb_eq in Hc. subst c.
      repeat split; reflexivity.
    + destruct IH as [[Hn Hs] | (host & port & Hs & Hn & Hsp)].
      * left. rewrite Hs. split; [exact Hn | reflexivity].
      * right. exists (String c host), port. rewrite Hsp, contains_colon_cons, Hc, Hn.
        subst s. repeat split; reflexivity.
Qed.

Lemma contains_colon_join (host port : string) :
  contains_colon (host +:+ ":" +:+ port) = true.
Proof.
  induction host as [|c host IH].
  - reflexivity.
  - rewrite append_cons, contains_colon_cons, IH. apply orb_true_r.
Qed.

Lemma san_lookup_found (exts : list Extension) (names : list GeneralName) :
  get_extension_for_oid_SAN exts = inr names <-> san_of exts names.
Proof.
  split.
  - induction exts as [|x exts IH]; simpl; intros H; [discriminate|].
    destruct x as [ns|o].
    + inversion H; subst. exists [], exts. split; [reflexivity | constructor].
    + destruct (IH H) as (b & a & -> & Hb).
      exists (UnrecognizedExtension o :: b), a. split; [reflexivity|].
      constructor; [reflexivity | exact Hb].
  - intros (b & a & -> & Hb). induction Hb as [|x b Hx Hb IH]; simpl.
    + reflexivity.
    + destruct x; [discriminate Hx | exact IH].
Qed.

Lemma san_lookup_missing (exts : list Extension) (e : exn) :
  get_extension_for_oid_SAN exts = inl e <->
  e = ExtensionNotFound /\ Forall (fun x => is_san x = false) exts.
Proof.
  split.
  - induction exts as [|x exts IH]; simpl; intros H.
    + inversion H. split; [reflexivity | constructor].
    + destruct x as [ns|o]; [discriminate|].
      destruct (IH H) as [-> Hf]. split; [reflexivity|].
      constructor; [reflexivity | exact Hf].
  - intros [-> Hf]. induction Hf as [|x l Hx Hf IH]; simpl.
    + reflexivity.
    + destruct x; [discriminate Hx | exact IH].
Qed.

Lemma dns_values_first (names : list GeneralName) (d : string) :
  index0 (get_values_for_type_DNSName names) = inr d <-> first_dns names d.
Proof.
  split.
  - induction names as [|x names IH]; simpl; intros H; [discriminate|].
    destruct x as [v| | | |];
      try (destruct (IH H) as (b & a & -> & Hb);
           eexists (_ :: b), a; split; [reflexivity|];
           constructor; [reflexivity | exact Hb]).
    inversion H; subst. exists [], names. split; [reflexivity | constructor].
  - intros (b & a & -> & Hb). induction Hb as [|x b Hx Hb IH]; simpl.
    + reflexivity.
    + destruct x; first [discriminate Hx | exact IH].
Qed.

Lemma dns_values_none (names : list GeneralName) (e : exn) :
  index0 (get_values_for_type_DNSName names) = inl e <->
  e = IndexError /\ Forall (fun n => is_dns n = false) names.
Proof.
  split.
  - induction names as [|x names IH]; simpl; intros H.
    + inversion H. split; [reflexivity | constructor].
    + destruct x as [v| | | |]; try discriminate;
        destruct (IH H) as [-> Hf]; (split; [reflexivity|]);
        (constructor; [reflexivity | exact Hf]).
  - intros [-> Hf]. induction Hf as [|x l Hx Hf IH]; simpl.
    + reflexivity.
    + destruct x; first [discriminate Hx | exact IH].
Qed.

(** ** PEM encoding *)

Lemma append_assoc (a b c : string) : (a +:+ b) +:+ c = a +:+ (b +:+ c).
Proof.
  induction a as [|x a IH]; [reflexivity|].
  rewrite !append_cons, IH. reflexivity.
Qed.

Lemma str_join_cons (sep p : string) (rest : list string) :
  rest <> [] -> str_join sep (p :: rest) = p +:+ sep +:+ str_join sep rest.
Proof. destruct rest; [congruence | reflexivity]. Qed.

Lemma str_join_snoc (sep last : string) (parts : list string) :
  exists body, str_join sep (parts ++ [last]) = body +:+ last.
Proof.
  induction parts as [|p parts [body IH]].
  - exists EmptyString. reflexivity.
  - exists (p +:+ sep +:+ body). rewrite <- app_comm_cons.
    rewrite str_join_cons by (destruct parts; discriminate).
    rewrite IH, !append_assoc. reflexivity.
Qed.

Lemma substring_all (s : string) : String.substring 0 (String.length s) s = s.
Proof. induction s as [|c s IH]; simpl; [reflexivity | rewrite IH; reflexivity]. Qed.

Lemma substring_split (n : nat) (s : string) :
  String.substring 0 n s +:+ String.substring n (String.length s - n) s = s.
Proof.
  revert s. induction n as [|n IH]; intros s.
  - rewrite Nat.sub_0_r, substring_all. destruct s; reflexivity.
  - destruct s as [|c s]; [reflexivity|].
    simpl String.substring. simpl String.length. simpl Nat.sub.
    rewrite append_cons, IH. reflexivity.
Qed.

Lemma substring_length_le (n m : nat) (s : string) :
  String.length (String.substring n m s) <= m.
Proof.
  revert n m. induction s as [|c s IH]; intros n m.
  - destruct n, m; simpl; lia.
  - destruct n as [|n]; [destruct m as [|m]|]; simpl.
    + lia.
    + specialize (IH 0 m). lia.
    + apply IH.
Qed.

Lemma append_empty_r (s : string) : s +:+ EmptyString = s.
Proof.
  induction s as [|c s IH]; [reflexivity | rewrite append_cons, IH; reflexivity].
Qed.

Lemma concat_cons (x : string) (rest : list string) :
  String.concat EmptyString (x :: rest) = x +:+ String.concat EmptyString rest.
Proof.
  destruct rest; simpl; [rewrite append_empty_r|]; reflexivity.
Qed.

Lemma lines64_step (fuel : nat) (c : ascii) (f : string) :
  lines64 (S fuel) (String c f) =
  String.substring 0 64 (String c f)
  :: lines64 fuel
       (String.substring 64 (String.length (String c f) - 64) (String c f)).
Proof. reflexivity. Qed.

(** The fuel of [lines64] is enough: the lines put together again are
    the text, so no character is dropped. *)
Lemma lines64_complete (fuel : nat) (f : string) :
  String.length f <= fuel -> String.concat EmptyString (lines64 fuel f) = f.
Proof.
  revert f. induction fuel as [|fuel IH]; intros f Hlen.
  - destruct f; [reflexivity | simpl in Hlen; lia].
  - destruct f as [|c f]; [reflexivity|].
    rewrite lines64_step, concat_cons.
    rewrite IH; [apply substring_split|].
    pose proof (substring_length_le 64 (String.length (String c f) - 64)
                  (String c f)) as Hle.
    simpl String.length in *. lia.
Qed.

Lemma DER_cert_to_PEM_cert_block (der : bytes) :
  is_pem_block (DER_cert_to_PEM_cert der).
Proof.
  unfold DER_cert_to_PEM_cert, is_pem_block.
  set (ls := lines64 _ _).
  destruct (str_join_snoc nl (PEM_FOOTER +:+ nl) ls) as [body Hbody].
  exists body. cbn [app].
  rewrite str_join_cons by (destruct ls; discriminate).
  rewrite Hbody. reflexivity.
Qed.

Lemma pem_block_nonempty (b : string) :
  is_pem_block b -> exists c rest, b = String c rest.
Proof. intros [body ->]. eexists _, _. reflexivity. Qed.

Lemma str_join_nonempty (sep : string) (parts : list string) :
  parts <> [] -> (forall p, In p parts -> exists c rest, p = String c rest) ->
  exists c rest, str_join sep parts = String c rest.
Proof.
  destruct parts as [|p parts]; [congruence|]. intros _ Hall.
  destruct (Hall p (or_introl eq_refl)) as (c & rest & ->).
  destruct parts; eexists _, _; reflexivity.
Qed.

Lemma encode_nonempty (c : ascii) (s : string) : encode (String c s) <> [].
Proof. discriminate. Qed.

(** ** The heap *)

Lemma M_bind_run {A B : Type} (m : M A) (f : A -> M B) (h : heap) :
  (m ≫= f) h =
  match m h with
  | None => None
  | Some (inl e, h') => Some (inl e, h')
  | Some (inr a, h') => f a h'
  end.
Proof. reflexivity. Qed.

Lemma list_copy_run (l : loc) (h : heap) (xs : list ChannelArgument) :
  h !! l = Some xs -> list_copy l h = Some (inr (length h), h ++ [xs]).
Proof. intros H. unfold list_copy. rewrite H. reflexivity. Qed.

Lemma list_append_last (h : heap) (xs : list ChannelArgument) (x : ChannelArgument) :
  list_append (length h) x (h ++ [xs]) = Some (inr tt, h ++ [xs ++ [x]]).
Proof.
  unfold list_append.
  rewrite list_lookup_middle by reflexivity.
  rewrite insert_app_r_alt by lia.
  rewrite Nat.sub_diag. reflexivity.
Qed.

Lemma list_items_last (h : heap) (xs : list ChannelArgument) :
  list_items (length h) (h ++ [xs]) = Some (inr xs, h ++ [xs]).
Proof.
  unfold list_items. rewrite list_lookup_middle by reflexivity. reflexivity.
Qed.

Lemma with_default_lookup (h : heap) (options : option loc)
    (base : list ChannelArgument) :
  caller_options h options = Some base ->
  exists l, with_default h options !! l = Some base /\
    (match options with
     | None => new_list []
     | Some l => mret l
     end) h = Some (inr l, with_default h options).
Proof.
  destruct options as [l|]; simpl; intros H.
  - exists l. split; [exact H | reflexivity].
  - inversion H; subst. exists (length h). split; [|reflexivity].
    apply list_lookup_middle. reflexivity.
Qed.

Lemma json_config_text : json_dumps retry_config = retry_policy_text.
Proof. vm_compute. reflexivity. Qed.

Lemma override_options_truthy (o : option string) :
  override_options o =
  if truthy o then [("grpc.ssl_target_name_override", VStr (default EmptyString o))]
  else [].
Proof. destruct o as [[|c s]|]; reflexivity. Qed.

(** ** Trust resolution *)

Section TrustResolutionProperties.

Variable rt : Runtime.

(** The pinning branch, one library call after the other. *)
Lemma pinning_unfold (address : string) (force : bool) :
  create_grpc_ssl_config rt address false force =
  match unpack2 (str_split1 address) with
  | inl e => inl e
  | inr (host, port) =>
  match int_of_str rt port with
  | inl e => inl e
  | inr n =>
  match get_server_certificate rt host n with
  | inl e => inl e
  | inr pem =>
  match load_pem_x509_certificate rt (encode pem) with
  | inl e => inl e
  | inr cert =>
  match extensions cert with
  | inl e => inl e
  | inr exts =>
  match get_extension_for_oid_SAN exts with
  | inl e => inl e
  | inr san =>
  match index0 (get_values_for_type_DNSName san) with
  | inl e => inl e
  | inr d => inr {| cadata := Some (encode pem); hostname_override := Some d |}
  end end end end end end end.
Proof.
  unfold create_grpc_ssl_config, mbind, result_bind, mret, result_ret.
  destruct (unpack2 (str_split1 address)) as [e|[host port]]; reflexivity.
Qed.

Ltac use_stage :=
  match goal with
  | H : ?x = inr _ |- context [match ?x with _ => _ end] => rewrite H
  | H : ?x = inl _ |- context [match ?x with _ => _ end] => rewrite H
  end.

Ltac open_stages :=
  repeat match goal with
  | H : parsed _ _ _ _ |- _ => destruct H as [? (? & ? & ?)]
  | H : fetched _ _ _ |- _ => destruct H as (? & ? & ? & ?)
  | H : endpoint_of _ _ _ _ |- _ => destruct H as (? & ? & ? & ?)
  end.

Ltac run_pinning :=
  open_stages; subst; rewrite pinning_unfold;
  rewrite str_split1_join by assumption; cbn [unpack2];
  repeat use_stage.

Lemma pinning_success (address : string) (force : bool) (cfg : GRPCSSLConfig) :
  create_grpc_ssl_config rt address false force = inr cfg <->
  exists pem exts names d,
    parsed rt address pem exts /\ san_of exts names /\ first_dns names d /\
    cfg = {| cadata := Some (encode pem); hostname_override := Some d |}.
Proof.
  split.
  - rewrite pinning_unfold.
    destruct (str_split1_cases address)
      as [[_ ->] | (host & port & Haddr & Hhost & ->)]; cbn [unpack2];
      [discriminate|].
    destruct (int_of_str rt port) as [|n] eqn:Hport; [discriminate|].
    destruct (get_server_certificate rt host n) as [|pem] eqn:Hpem; [discriminate|].
    destruct (load_pem_x509_certificate rt (encode pem)) as [|cert] eqn:Hcert;
      [discriminate|].
    destruct (extensions cert) as [|exts] eqn:Hexts; [discriminate|].
    destruct (get_extension_for_oid_SAN exts) as [|names] eqn:Hsan; [discriminate|].
    destruct (index0 (get_values_for_type_DNSName names)) as [|d] eqn:Hdns;
      [discriminate|].
    intros [= <-]. exists pem, exts, names, d.
    apply san_lookup_found in Hsan. apply dns_values_first in Hdns.
    repeat split; try assumption.
    + exists host, n. split; [exists port; auto | assumption].
    + exists cert. auto.
  - intros (pem & exts & names & d & Hp & Hsan & Hdns & ->).
    apply san_lookup_found in Hsan. apply dns_values_first in Hdns.
    run_pinning. reflexivity.
Qed.

(** C1 (amended). With [do_verify_ssl=False] trust resolution wraps
    nothing: it fails with [e] exactly when one of its steps fails with
    [e]. An address without a colon gives [ValueError]; a failing
    [int(port)], certificate retrieval, PEM parser or extension decoder
    gives whatever it raised; a certificate without a Subject Alternative
    Name extension gives [ExtensionNotFound]; an extension without a DNS
    entry gives [IndexError]. No other failure exists. *)
Theorem pinning_errors (address : string) (force : bool) (e : exn) :
  create_grpc_ssl_config rt address false force = inl e <->
  pinning_failure rt address e.
Proof.
  split.
  - rewrite pinning_unfold.
    destruct (str_split1_cases address)
      as [[Hno ->] | (host & port & Haddr & Hhost & ->)]; cbn [unpack2].
    { intros [= <-]. apply no_colon. exact Hno. }
    destruct (int_of_str rt port) as [e1|n] eqn:Hport.
    { intros [= <-]. eapply bad_port; eassumption. }
    assert (endpoint_of rt address host n) as Hend by (exists port; auto).
    destruct (get_server_certificate rt host n) as [e1|pem] eqn:Hpem.
    { intros [= <-]. eapply retrieval_failed; eassumption. }
    assert (fetched rt address pem) as Hfetch by (exists host, n; auto).
    destruct (load_pem_x509_certificate rt (encode pem)) as [e1|cert] eqn:Hcert.
    { intros [= <-]. eapply parse_failed; eassumption. }
    destruct (extensions cert) as [e1|exts] eqn:Hexts.
    { intros [= <-]. eapply extensions_failed; eassumption. }
    assert (parsed rt address pem exts) as Hparsed
      by (split; [assumption | exists cert; auto]).
    destruct (get_extension_for_oid_SAN exts) as [e1|names] eqn:Hsan.
    { intros [= <-]. apply san_lookup_missing in Hsan as [-> Hall].
      eapply no_san; eassumption. }
    apply san_lookup_found in Hsan.
    destruct (index0 (get_values_for_type_DNSName names)) as [e1|d] eqn:Hdns.
    { intros [= <-]. apply dns_values_none in Hdns as [-> Hall].
      eapply no_dns; eassumption. }
    discriminate.
  - intros Hfail. destruct Hfail
      as [Hno | host port e Haddr Hhost Hport | host n e Hend Hget
          | pem e Hfetch Hload | pem cert e Hfetch Hload Hexts
          | pem exts Hparsed Hall | pem exts names Hparsed Hsan Hall].
    + rewrite pinning_unfold.
      destruct (str_split1_cases address)
        as [[_ ->] | (host & port & -> & _ & _)]; [reflexivity|].
      rewrite contains_colon_join in Hno. discriminate.
    + run_pinning. reflexivity.
    + run_pinning. reflexivity.
    + run_pinning. reflexivity.
    + run_pinning. reflexivity.
    + assert (get_extension_for_oid_SAN exts = inl ExtensionNotFound) as Hsan
        by (apply san_lookup_missing; auto).
      run_pinning. reflexivity.
    + apply san_lookup_found in Hsan.
      assert (index0 (get_values_for_type_DNSName names) = inl IndexError) as Hdns
        by (apply dns_values_none; auto).
      run_pinning. reflexivity.
Qed.

End TrustResolutionProperties.

(** C1, as stated, fails: an address without a port raises [ValueError]
    before any socket is opened, and a certificate without a Subject
    Alternative Name extension raises the library's [ExtensionNotFound];
    neither is a [ConnectionError] or a [CertificateParseError]. *)
Lemma other_error_kinds_escape :
  create_grpc_ssl_config pinned_runtime "localhost" false false = inl ValueError /\
  create_grpc_ssl_config no_san_runtime "self-signed.local:443" false false
    = inl ExtensionNotFound /\
  ValueError <> ConnectionError /\ ValueError <> CertificateParseError /\
  ExtensionNotFound <> CertificateParseError.
Proof. repeat split; solve [vm_compute; reflexivity | discriminate]. Qed.

(** C2. With [do_verify_ssl=False], trust resolution returns a config
    exactly when the endpoint is reached and its certificate parses with
    a DNS entry in its Subject Alternative Name extension; the config
    then holds the PEM text of that certificate, encoded, as [cadata] and
    the first DNS entry as [hostname_override]. *)
Theorem pinned_trust_config (rt : Runtime) (address : string) (force : bool)
    (cfg : GRPCSSLConfig) :
  create_grpc_ssl_config rt address false force = inr cfg <->
  exists pem exts names d,
    parsed rt address pem exts /\ san_of exts names /\ first_dns names d /\
    cfg = {| cadata := Some (encode pem); hostname_override := Some d |}.
Proof. apply pinning_success. Qed.

Lemma sample_endpoint_parsed (cert : Certificate) (roots : list bytes)
    (exts : list Extension) :
  extensions cert = inr exts ->
  parsed (sample_runtime cert roots) "self-signed.local:443" sample_pem exts.
Proof.
  intros Hexts. split.
  - exists "self-signed.local", 443%Z. split; [|reflexivity].
    exists "443". repeat split; reflexivity.
  - exists cert. split; [vm_compute; reflexivity | exact Hexts].
Qed.

Lemma sample_san (d : string) :
  san_of [UnrecognizedExtension "2.5.29.19";
          SubjectAlternativeName
            [IPAddress "10.0.0.7"; DNSName d; DNSName "alt.layer.internal"]]
         [IPAddress "10.0.0.7"; DNSName d; DNSName "alt.layer.internal"].
Proof.
  exists [UnrecognizedExtension "2.5.29.19"], []. split; [reflexivity|].
  repeat constructor.
Qed.

Lemma sample_first_dns (d : string) :
  first_dns [IPAddress "10.0.0.7"; DNSName d; DNSName "alt.layer.internal"] d.
Proof.
  exists [IPAddress "10.0.0.7"], [DNSName "alt.layer.internal"].
  split; [reflexivity | repeat constructor].
Qed.

Lemma pinned_trust_config_witness :
  create_grpc_ssl_config pinned_runtime "self-signed.local:443" false false =
  inr {| cadata := Some (encode sample_pem);
         hostname_override := Some "layer.internal" |}.
Proof.
  apply (proj2 (pinned_trust_config pinned_runtime "self-signed.local:443" false _)).
  eexists sample_pem, _, _, "layer.internal".
  split; [apply sample_endpoint_parsed; reflexivity|].
  split; [apply sample_san|].
  split; [apply sample_first_dns | reflexivity].
Defined.

(** C8. With [do_verify_ssl=True] and [do_force_cadata_load=False] the
    config has neither [cadata] nor [hostname_override], whatever the
    address and the runtime. *)
Theorem verified_trust_is_default (rt : Runtime) (address : string) :
  create_grpc_ssl_config rt address true false =
  inr {| cadata := None; hostname_override := None |}.
Proof. reflexivity. Qed.

(** C9, as stated, fails: when the default context lists no authority
    certificate the anchor bytes are present and empty. *)
Lemma empty_store_gives_empty_anchor :
  create_grpc_ssl_config empty_store_runtime "example.com:443" true true =
  inr {| cadata := Some []; hostname_override := None |}.
Proof. reflexivity. Qed.

(** ** The channel factory *)

Section ChannelFactoryProperties.

Variable rt : Runtime.

(** The factory's whole effect: the channel it returns and the heap it
    leaves, in terms of what trust resolution returned. *)
Lemma create_grpc_channel_run (address token : string) (verify : bool)
    (path : string) (options : option loc) (h : heap)
    (base : list ChannelArgument) :
  caller_options h options = Some base ->
  create_grpc_channel rt address token verify path options h =
  match create_grpc_ssl_config rt address verify false with
  | inl e => Some (inl e, with_default h options ++ [base])
  | inr cfg =>
      let passed :=
        base ++ override_options (hostname_override cfg) ++ fixed_options in
      Some (inr (intercept_channel
                   (secure_channel address
                      (composite_channel_credentials
                         (ssl_channel_credentials (cadata cfg))
                         (access_token_call_credentials token))
                      passed)
                   [RequestIdInterceptor; TrackingClientInterceptor;
                    GRPCErrorClientInterceptor; LogRpcCallsInterceptor path]),
            with_default h options ++ [passed])
  end.
Proof.
  intros Hbase.
  destruct (with_default_lookup h options base Hbase) as (l & Hl & Hbind).
  unfold create_grpc_channel.
  rewrite M_bind_run, Hbind.
  rewrite M_bind_run, (list_copy_run _ _ _ Hl).
  rewrite M_bind_run. unfold lift at 1.
  destruct (create_grpc_ssl_config rt address verify false) as [e|cfg];
    [reflexivity|].
  set (h0 := with_default h options).
  rewrite M_bind_run, override_options_truthy.
  destruct (truthy (hostname_override cfg)).
  - rewrite list_append_last.
    repeat rewrite M_bind_run, list_append_last.
    rewrite M_bind_run, list_items_last.
    rewrite json_config_text. cbn [app]. rewrite <- !app_assoc. reflexivity.
  - cbn [mret M_ret].
    repeat rewrite M_bind_run, list_append_last.
    rewrite M_bind_run, list_items_last.
    rewrite json_config_text. cbn [app]. rewrite <- !app_assoc. reflexivity.
Qed.

End ChannelFactoryProperties.

Lemma override_options_cases (o : option string) :
  (truthy o = false /\ override_options o = []) \/
  (exists name, truthy o = true /\ o = Some name /\
     override_options o = [("grpc.ssl_target_name_override", VStr name)]).
Proof.
  destruct o as [[|c s]|].
  - left. split; reflexivity.
  - right. exists (String c s). repeat split; reflexivity.
  - left. split; reflexivity.
Qed.

(** C3, as stated, fails: with no caller options and no hostname
    override the transport receives six entries, not four. *)
Lemma default_call_passes_six_options :
  exists ch h',
    create_grpc_channel pinned_runtime "example.com:443" "token123" true
      "/tmp/log" None [] = Some (inr ch, h') /\
    length (transport_options ch) = 6.
Proof. eexists _, _. split; vm_compute; reflexivity. Qed.

(** C3 (amended). Whenever trust resolution returns, the factory returns
    a channel whose transport options are the caller's options followed
    by zero or one [grpc.ssl_target_name_override] entry and then by
    exactly six fixed entries ([grpc.enable_retries],
    [grpc.service_config] and the four keepalive and ping entries). The
    override entry appears only when the config has a hostname override,
    whose value it carries. *)
Theorem channel_options_extend_base (rt : Runtime) (address token : string)
    (verify : bool) (path : string) (options : option loc) (h : heap)
    (base : list ChannelArgument) (cfg : GRPCSSLConfig) :
  caller_options h options = Some base ->
  create_grpc_ssl_config rt address verify false = inr cfg ->
  exists ch h' override,
    create_grpc_channel rt address token verify path options h
      = Some (inr ch, h') /\
    transport_options ch = base ++ override ++ fixed_options /\
    length fixed_options = 6 /\
    (override = [] \/
     exists name, hostname_override cfg = Some name /\
       override = [("grpc.ssl_target_name_override", VStr name)]).
Proof.
  intros Hbase Hcfg.
  rewrite (create_grpc_channel_run rt _ _ _ _ _ _ _ Hbase), Hcfg.
  eexists _, _, (override_options (hostname_override cfg)).
  split; [reflexivity|]. split; [reflexivity|]. split; [reflexivity|].
  destruct (override_options_cases (hostname_override cfg))
    as [[_ ->] | (name & _ & Hname & ->)]; [left; reflexivity|].
  right. exists name. split; [exact Hname | reflexivity].
Qed.

Lemma channel_options_extend_base_witness :
  exists ch h' override,
    create_grpc_channel pinned_runtime "self-signed.local:443" "token123" false
      "/tmp/log" (Some 0) [[("grpc.max_receive_message_length", VInt 1024)]]
      = Some (inr ch, h') /\
    transport_options ch =
      [("grpc.max_receive_message_length", VInt 1024)] ++ override ++ fixed_options /\
    length fixed_options = 6 /\
    (override = [] \/
     exists name,
       hostname_override
         {| cadata := Some (encode sample_pem);
            hostname_override := Some "layer.internal" |} = Some name /\
       override = [("grpc.ssl_target_name_override", VStr name)]).
Proof.
  apply (channel_options_extend_base pinned_runtime "self-signed.local:443"
           "token123" false "/tmp/log" (Some 0)
           [[("grpc.max_receive_message_length", VInt 1024)]]
           [("grpc.max_receive_message_length", VInt 1024)]).
  - reflexivity.
  - vm_compute. reflexivity.
Defined.

(** C4. Whenever trust resolution returns, the transport options hold
    one [grpc.service_config] entry after the caller's own. Its value is
    the serialisation of the document
    [{methodConfig: [{name: [{}], retryPolicy: {maxAttempts: 5,
    initialBackoff: 0.3s, maxBackoff: 30s, backoffMultiplier: 3,
    retryableStatusCodes: [UNAVAILABLE]}}]}], whose text is
    [retry_policy_text]. *)
Theorem service_config_document (rt : Runtime) (address token : string)
    (verify : bool) (path : string) (options : option loc) (h : heap)
    (base : list ChannelArgument) (cfg : GRPCSSLConfig) :
  caller_options h options = Some base ->
  create_grpc_ssl_config rt address verify false = inr cfg ->
  exists ch h' before after,
    create_grpc_channel rt address token verify path options h
      = Some (inr ch, h') /\
    transport_options ch =
      base ++ before ++
      ("grpc.service_config",
       VStr (json_dumps (retry_policy_document 5 "0.3s" "30s" 3 ["UNAVAILABLE"])))
      :: after /\
    Forall (fun kv : ChannelArgument => fst kv <> "grpc.service_config")
      (before ++ after) /\
    json_dumps (retry_policy_document 5 "0.3s" "30s" 3 ["UNAVAILABLE"])
      = retry_policy_text.
Proof.
  intros Hbase Hcfg.
  rewrite (create_grpc_channel_run rt _ _ _ _ _ _ _ Hbase), Hcfg.
  eexists _, _,
    (override_options (hostname_override cfg) ++ [("grpc.enable_retries", VInt 1)]),
    (drop 2 fixed_options).
  split; [reflexivity|].
  split.
  - cbn [transport_options intercept_channel rev app fold_left].
    change (json_dumps (retry_policy_document 5 "0.3s" "30s" 3 ["UNAVAILABLE"]))
      with (json_dumps retry_config).
    rewrite json_config_text, <- !app_assoc. reflexivity.
  - split; [| exact json_config_text].
    destruct (override_options_cases (hostname_override cfg))
      as [[_ ->] | (name & _ & _ & ->)];
      repeat constructor; discriminate.
Qed.

Lemma service_config_document_witness :
  exists ch h' before after,
    create_grpc_channel pinned_runtime "example.com:443" "token123" true
      "/tmp/log" None [] = Some (inr ch, h') /\
    transport_options ch =
      [] ++ before ++
      ("grpc.service_config",
       VStr (json_dumps (retry_policy_document 5 "0.3s" "30s" 3 ["UNAVAILABLE"])))
      :: after /\
    Forall (fun kv : ChannelArgument => fst kv <> "grpc.service_config")
      (before ++ after) /\
    json_dumps (retry_policy_document 5 "0.3s" "30s" 3 ["UNAVAILABLE"])
      = retry_policy_text.
Proof.
  apply (service_config_document pinned_runtime "example.com:443" "token123"
           true "/tmp/log" None [] []
           {| cadata := None; hostname_override := None |});
    reflexivity.
Defined.

(** C5. Whenever trust resolution returns, the channel is the transport
    wrapped by the logging interceptor, then by error normalisation, then
    by call tracking, then by request-id stamping: a call reaches
    request-id stamping first (outermost) and logging last (innermost,
    next to the transport). *)
Theorem interceptor_chain_order (rt : Runtime) (address token : string)
    (verify : bool) (path : string) (options : option loc) (h : heap)
    (base : list ChannelArgument) (cfg : GRPCSSLConfig) :
  caller_options h options = Some base ->
  create_grpc_ssl_config rt address verify false = inr cfg ->
  exists ch h' credentials passed,
    create_grpc_channel rt address token verify path options h
      = Some (inr ch, h') /\
    ch = InterceptedChannel
           (InterceptedChannel
              (InterceptedChannel
                 (InterceptedChannel
                    (secure_channel address credentials passed)
                    (LogRpcCallsInterceptor path))
                 GRPCErrorClientInterceptor)
              TrackingClientInterceptor)
           RequestIdInterceptor /\
    call_order ch =
      [RequestIdInterceptor; TrackingClientInterceptor;
       GRPCErrorClientInterceptor; LogRpcCallsInterceptor path].
Proof.
  intros Hbase Hcfg.
  rewrite (create_grpc_channel_run rt _ _ _ _ _ _ _ Hbase), Hcfg.
  eexists _, _, _, _. repeat split; reflexivity.
Qed.

Lemma interceptor_chain_order_witness :
  exists ch h' credentials passed,
    create_grpc_channel pinned_runtime "example.com:443" "token123" true
      "/tmp/log" None [] = Some (inr ch, h') /\
    ch = InterceptedChannel
           (InterceptedChannel
              (InterceptedChannel
                 (InterceptedChannel
                    (secure_channel "example.com:443" credentials passed)
                    (LogRpcCallsInterceptor "/tmp/log"))
                 GRPCErrorClientInterceptor)
              TrackingClientInterceptor)
           RequestIdInterceptor /\
    call_order ch =
      [RequestIdInterceptor; TrackingClientInterceptor;
       GRPCErrorClientInterceptor; LogRpcCallsInterceptor "/tmp/log"].
Proof.
  apply (interceptor_chain_order pinned_runtime "example.com:443" "token123"
           true "/tmp/log" None [] []
           {| cadata := None; hostname_override := None |});
    reflexivity.
Defined.

(** C7. A call with the caller's list at address [l] always ends,
    returning or raising, with that list holding the same items as
    before; every other list object that existed is unchanged too. *)
Theorem caller_list_unchanged (rt : Runtime) (address token : string)
    (verify : bool) (path : string) (l : loc) (h : heap)
    (base : list ChannelArgument) :
  h !! l = Some base ->
  exists r h',
    create_grpc_channel rt address token verify path (Some l) h = Some (r, h') /\
    h' !! l = Some base /\
    (forall l' xs, h !! l' = Some xs -> h' !! l' = Some xs).
Proof.
  intros Hl.
  rewrite (create_grpc_channel_run rt _ _ _ _ (Some l) h base Hl).
  assert (forall extra l' xs, h !! l' = Some xs ->
            (with_default h (Some l) ++ [extra]) !! l' = Some xs) as Hkeep.
  { intros extra l' xs Hxs. cbn [with_default].
    rewrite lookup_app_l; [exact Hxs | eapply lookup_lt_Some; exact Hxs]. }
  destruct (create_grpc_ssl_config rt address verify false) as [e|cfg];
    eexists _, _; (split; [reflexivity|]); split; auto.
Qed.

Lemma caller_list_unchanged_witness :
  exists r h',
    create_grpc_channel pinned_runtime "self-signed.local:443" "token123" false
      "/tmp/log" (Some 0) [[("grpc.max_receive_message_length", VInt 1024)]]
      = Some (r, h') /\
    h' !! 0 = Some [("grpc.max_receive_message_length", VInt 1024)] /\
    (forall l' xs,
       [[("grpc.max_receive_message_length", VInt 1024)]] !! l' = Some xs ->
       h' !! l' = Some xs).
Proof.
  apply (caller_list_unchanged pinned_runtime "self-signed.local:443" "token123"
           false "/tmp/log" 0 [[("grpc.max_receive_message_length", VInt 1024)]]).
  reflexivity.
Defined.

(** C10. The override entry is appended exactly when the config's
    hostname override is truthy. In particular, when the first DNS entry
    of the pinned certificate is the empty string, trust resolution
    returns a config whose [hostname_override] is present and empty, and
    the transport options are the caller's followed by the fixed entries
    alone, none of which is [grpc.ssl_target_name_override]. *)
Theorem empty_override_treated_as_absent (rt : Runtime) (address token : string)
    (path : string) (options : option loc) (h : heap)
    (base : list ChannelArgument) :
  caller_options h options = Some base ->
  (forall verify cfg,
     create_grpc_ssl_config rt address verify false = inr cfg ->
     exists ch h',
       create_grpc_channel rt address token verify path options h
         = Some (inr ch, h') /\
       ((truthy (hostname_override cfg) = false /\
         transport_options ch = base ++ fixed_options) \/
        (exists name, truthy (hostname_override cfg) = true /\
           hostname_override cfg = Some name /\
           transport_options ch =
             base ++ [("grpc.ssl_target_name_override", VStr name)]
                  ++ fixed_options))) /\
  (forall pem exts names,
     parsed rt address pem exts -> san_of exts names ->
     first_dns names EmptyString ->
     create_grpc_ssl_config rt address false false =
       inr {| cadata := Some (encode pem);
              hostname_override := Some EmptyString |} /\
     exists ch h',
       create_grpc_channel rt address token false path options h
         = Some (inr ch, h') /\
       transport_options ch = base ++ fixed_options) /\
  Forall (fun kv : ChannelArgument => fst kv <> "grpc.ssl_target_name_override")
    fixed_options.
Proof.
  intros Hbase. split; [|split].
  - intros verify cfg Hcfg.
    rewrite (create_grpc_channel_run rt _ _ _ _ _ _ _ Hbase), Hcfg.
    eexists _, _. split; [reflexivity|].
    cbn [transport_options intercept_channel rev app fold_left].
    destruct (override_options_cases (hostname_override cfg))
      as [[Hf ->] | (name & Ht & Hname & ->)].
    + left. split; [exact Hf | reflexivity].
    + right. exists name. repeat split; assumption.
  - intros pem exts names Hparsed Hsan Hdns.
    assert (create_grpc_ssl_config rt address false false =
              inr {| cadata := Some (encode pem);
                     hostname_override := Some EmptyString |}) as Hcfg.
    { apply pinning_success. exists pem, exts, names, EmptyString. auto. }
    split; [exact Hcfg|].
    rewrite (create_grpc_channel_run rt _ _ _ _ _ _ _ Hbase), Hcfg.
    eexists _, _. split; reflexivity.
  - repeat constructor; discriminate.
Qed.

Lemma empty_override_treated_as_absent_witness :
  create_grpc_ssl_config empty_name_runtime "self-signed.local:443" false false =
    inr {| cadata := Some (encode sample_pem);
           hostname_override := Some EmptyString |} /\
  exists ch h',
    create_grpc_channel empty_name_runtime "self-signed.local:443" "token123"
      false "/tmp/log" None [] = Some (inr ch, h') /\
    transport_options ch = [] ++ fixed_options.
Proof.
  destruct (empty_override_treated_as_absent empty_name_runtime
              "self-signed.local:443" "token123" "/tmp/log" None [] [] eq_refl)
    as (_ & Hempty & _).
  eapply Hempty.
  - apply sample_endpoint_parsed. reflexivity.
  - apply sample_san.
  - apply sample_first_dns.
Defined.

(** ** The retry schedule *)

(** C6 (the constants miss the policy the code documents). The policy
    in the service config allows five attempts, hence four retries, with
    delays of at most 0.3s, 0.9s, 2.7s and 8.1s before them. No term of
    the capped sequence exceeds the 30s ceiling, yet the fifth and last
    attempt starts at most 12s after the first, and still before 25s
    when every delay is stretched by the 20% jitter of the gRPC core.
    Only a sixth attempt, which [maxAttempts] excludes, could start 25s
    or later. *)
Theorem fifth_attempt_starts_within_12s :
  exists p,
    retry_policy_of retry_config = Some p /\
    maxAttempts p = 5%Z /\
    Forall2 Qeq (map (backoff_ceiling p) (seq 0 4)) [0.3; 0.9; 2.7; 8.1]%Q /\
    Forall (fun k => (backoff_ceiling p k <= 30)%Q) (seq 0 5) /\
    (latest_start p 5 == 12)%Q /\
    (latest_start p 5 < 25)%Q /\
    (1.2 * latest_start p 5 < 25)%Q /\
    (latest_start p 6 == 36.3)%Q.
Proof.
  eexists. split; [vm_compute; reflexivity|].
  split; [reflexivity|].
  split; [repeat constructor; vm_compute; reflexivity|].
  split; [repeat constructor; vm_compute; discriminate|].
  repeat split; vm_compute; reflexivity.
Qed.

(** * Further properties of the factory *)

Lemma last_value_app (k : string) (a b : list ChannelArgument) :
  last_value k (a ++ b) =
  match last_value k b with
  | Some w => Some w
  | None => last_value k a
  end.
Proof.
  induction a as [|[k' v] a IH]; simpl.
  - destruct (last_value k b); reflexivity.
  - rewrite IH. destruct (last_value k b); reflexivity.
Qed.

Lemma last_value_fixed (k : string) (v : OptionValue) :
  In (k, v) fixed_options -> last_value k fixed_options = Some v.
Proof.
  intros Hin. repeat (destruct Hin as [[= <- <-] | Hin]; [reflexivity|]).
  destruct Hin.
Qed.

Lemma last_value_absent (k : string) (opts : list ChannelArgument) :
  ~ In k (map fst opts) -> last_value k opts = None.
Proof.
  induction opts as [|[k' v] opts IH]; simpl; intros Hk; [reflexivity|].
  rewrite IH by tauto.
  destruct (String.eqb_spec k' k) as [->|]; [tauto | reflexivity].
Qed.

Section FactoryComposition.

Variable rt : Runtime.


(** X2. With [do_verify_ssl=True] nothing of the runtime is consulted
    and the address is not inspected: any other runtime gives the same
    outcome, trust resolution contributes no failure, and what is handed
    to [grpc] is the address as given, default root certificates
    combined with the access token, and the caller's options followed by
    the fixed entries, with no hostname override. *)
Theorem verified_channel_needs_no_runtime (rt' : Runtime)
    (address token path : string) (options : option loc) (h : heap)
    (base : list ChannelArgument) :
  caller_options h options = Some base ->
  create_grpc_channel rt address token true path options h =
    create_grpc_channel rt' address token true path options h /\
  exists ch h',
    create_grpc_channel rt address token true path options h
      = Some (inr ch, h') /\
    transport_target ch = address /\
    transport_credentials ch =
      composite_channel_credentials
        (ssl_channel_credentials None)
        (access_token_call_credentials token) /\
    transport_options ch = base ++ fixed_options.
Proof.
  intros Hbase.
  rewrite (create_grpc_channel_run rt _ _ _ _ _ _ _ Hbase).
  rewrite (create_grpc_channel_run rt' _ _ _ _ _ _ _ Hbase).
  split; [reflexivity|].
  eexists _, _. repeat split; reflexivity.
Qed.

(** X3. With [do_verify_ssl=False] and an endpoint that hands over a
    certificate whose first DNS name is [d], the channel is opened to the
    address as given, its root certificates are that one certificate's
    PEM bytes, its call credentials carry the access token, and the
    expected host name is overridden with [d] unless [d] is empty. *)
Theorem pinned_channel_end_to_end (address token path : string)
    (options : option loc) (h : heap) (base : list ChannelArgument)
    (pem : string) (exts : list Extension) (names : list GeneralName)
    (d : string) :
  caller_options h options = Some base ->
  parsed rt address pem exts -> san_of exts names -> first_dns names d ->
  exists ch h',
    create_grpc_channel rt address token false path options h
      = Some (inr ch, h') /\
    transport_target ch = address /\
    transport_credentials ch =
      composite_channel_credentials
        (ssl_channel_credentials (Some (encode pem)))
        (access_token_call_credentials token) /\
    transport_options ch =
      base ++ override_options (Some d) ++ fixed_options.
Proof.
  intros Hbase Hparsed Hsan Hdns.
  assert (create_grpc_ssl_config rt address false false =
            inr {| cadata := Some (encode pem); hostname_override := Some d |})
    as Hcfg.
  { apply pinning_success. exists pem, exts, names, d. auto. }
  rewrite (create_grpc_channel_run rt _ _ _ _ _ _ _ Hbase), Hcfg.
  eexists _, _. repeat split; reflexivity.
Qed.

(** X4. The factory's entries come last, so for a reader that lets later
    entries win they shadow whatever the caller passed under the same
    keys: each of the six fixed keys reads as the factory's value, the
    override key reads as the certificate's name when one is appended,
    and every other key (the override key too when nothing is appended)
    reads as in the caller's list. *)
Theorem factory_entries_shadow_caller (address token : string) (verify : bool)
    (path : string) (options : option loc) (h : heap)
    (base : list ChannelArgument) (cfg : GRPCSSLConfig) :
  caller_options h options = Some base ->
  create_grpc_ssl_config rt address verify false = inr cfg ->
  exists ch h',
    create_grpc_channel rt address token verify path options h
      = Some (inr ch, h') /\
    (forall k v, In (k, v) fixed_options ->
       last_value k (transport_options ch) = Some v) /\
    (forall name, hostname_override cfg = Some name -> name <> EmptyString ->
       last_value "grpc.ssl_target_name_override" (transport_options ch)
         = Some (VStr name)) /\
    (truthy (hostname_override cfg) = false ->
       last_value "grpc.ssl_target_name_override" (transport_options ch)
         = last_value "grpc.ssl_target_name_override" base) /\
    (forall k, ~ In k (map fst fixed_options) ->
       k <> "grpc.ssl_target_name_override" ->
       last_value k (transport_options ch) = last_value k base).
Proof.
  intros Hbase Hcfg.
  rewrite (create_grpc_channel_run rt _ _ _ _ _ _ _ Hbase), Hcfg.
  eexists _, _. split; [reflexivity|].
  cbn [transport_options intercept_channel rev app fold_left].
  split; [|split; [|split]].
  - intros k v Hin. rewrite !last_value_app, (last_value_fixed k v Hin).
    reflexivity.
  - intros name Hname Hne. rewrite Hname.
    destruct name as [|c name]; [congruence|].
    rewrite !last_value_app. reflexivity.
  - intros Hfalse. rewrite !last_value_app.
    destruct (override_options_cases (hostname_override cfg))
      as [[_ ->] | (name & Ht & _)]; [reflexivity | congruence].
  - intros k Hfixed Hk. rewrite !last_value_app.
    rewrite (last_value_absent k fixed_options Hfixed).
    destruct (override_options_cases (hostname_override cfg))
      as [[_ ->] | (name & _ & _ & ->)]; [reflexivity|].
    cbn [last_value]. destruct (String.eqb_spec "grpc.ssl_target_name_override" k);
      [congruence | reflexivity].
Qed.

(** X5. Calls do not accumulate: a second call with the same arguments
    and the same list object, run on the heap the first call left, ends
    with the same outcome as the first. *)
Theorem repeated_calls_do_not_accumulate (address token : string)
    (verify : bool) (path : string) (l : loc) (h : heap)
    (base : list ChannelArgument) :
  h !! l = Some base ->
  exists r h1 h2,
    create_grpc_channel rt address token verify path (Some l) h = Some (r, h1) /\
    create_grpc_channel rt address token verify path (Some l) h1 = Some (r, h2).
Proof.
  intros Hl.
  assert (forall extra, (h ++ [extra]) !! l = Some base) as Hkeep.
  { intros extra. rewrite lookup_app_l; [exact Hl | eapply lookup_lt_Some; exact Hl]. }
  rewrite (create_grpc_channel_run rt _ _ _ _ (Some l) h base Hl).
  cbn [with_default].
  destruct (create_grpc_ssl_config rt address verify false) as [e|cfg] eqn:Hcfg;
    eexists _, _, _; (split; [reflexivity|]);
    rewrite (create_grpc_channel_run rt _ _ _ _ (Some l) _ base (Hkeep _)), Hcfg;
    reflexivity.
Qed.

(** X6. Leaving [options] out is the same as passing an empty list: both
    calls end with the same outcome. *)
Theorem omitted_options_mean_empty_list (address token : string)
    (verify : bool) (path : string) (l : loc) (h : heap) :
  h !! l = Some [] ->
  exists r h1 h2,
    create_grpc_channel rt address token verify path (Some l) h = Some (r, h1) /\
    create_grpc_channel rt address token verify path None h = Some (r, h2).
Proof.
  intros Hl.
  rewrite (create_grpc_channel_run rt _ _ _ _ (Some l) h [] Hl).
  rewrite (create_grpc_channel_run rt _ _ _ _ None h [] eq_refl).
  destruct (create_grpc_ssl_config rt address verify false) as [e|cfg];
    eexists _, _, _; split; reflexivity.
Qed.

(** X7. Which fields a returned config has depends on the mode alone: a
    hostname override is present exactly in pinning mode, and anchor
    bytes are present exactly in pinning mode or when the load of the
    default bundle is forced. *)
Theorem trust_config_fields_by_mode (address : string) (verify force : bool)
    (cfg : GRPCSSLConfig) :
  create_grpc_ssl_config rt address verify force = inr cfg ->
  (is_Some (hostname_override cfg) <-> verify = false) /\
  (is_Some (cadata cfg) <-> verify = false \/ force = true).
Proof.
  destruct verify.
  - destruct force; intros [= <-]; simpl; split; split;
      try (intros [? [=]]); try discriminate; try (intros [|]; discriminate);
      eauto.
  - intros Hcfg. apply pinning_success in Hcfg
      as (pem & exts & names & d & _ & _ & _ & ->).
    simpl. split; split; eauto.
Qed.

End FactoryComposition.

Lemma pinned_runtime_config :
  create_grpc_ssl_config pinned_runtime "self-signed.local:443" false false =
  inr {| cadata := Some (encode sample_pem);
         hostname_override := Some "layer.internal" |}.
Proof. vm_compute. reflexivity. Qed.


Lemma verified_channel_needs_no_runtime_witness :
  create_grpc_channel no_san_runtime "not an address" "token123" true "/tmp/log"
    (Some 0) [[("grpc.max_receive_message_length", VInt 1024)]] =
    create_grpc_channel pinned_runtime "not an address" "token123" true
      "/tmp/log" (Some 0) [[("grpc.max_receive_message_length", VInt 1024)]] /\
  exists ch h',
    create_grpc_channel no_san_runtime "not an address" "token123" true
      "/tmp/log" (Some 0) [[("grpc.max_receive_message_length", VInt 1024)]]
      = Some (inr ch, h') /\
    transport_target ch = "not an address" /\
    transport_credentials ch =
      composite_channel_credentials
        (ssl_channel_credentials None)
        (access_token_call_credentials "token123") /\
    transport_options ch =
      [("grpc.max_receive_message_length", VInt 1024)] ++ fixed_options.
Proof.
  apply (verified_channel_needs_no_runtime no_san_runtime pinned_runtime
           "not an address" "token123" "/tmp/log" (Some 0)
           [[("grpc.max_receive_message_length", VInt 1024)]]).
  reflexivity.
Defined.

Lemma pinned_channel_end_to_end_witness :
  exists ch h',
    create_grpc_channel pinned_runtime "self-signed.local:443" "token123" false
      "/tmp/log" None [] = Some (inr ch, h') /\
    transport_target ch = "self-signed.local:443" /\
    transport_credentials ch =
      composite_channel_credentials
        (ssl_channel_credentials (Some (encode sample_pem)))
        (access_token_call_credentials "token123") /\
    transport_options ch =
      [] ++ override_options (Some "layer.internal") ++ fixed_options.
Proof.
  eapply (pinned_channel_end_to_end pinned_runtime "self-signed.local:443"
            "token123" "/tmp/log" None [] [] sample_pem).
  - reflexivity.
  - apply sample_endpoint_parsed. reflexivity.
  - apply sample_san.
  - apply sample_first_dns.
Defined.

Lemma factory_entries_shadow_caller_witness :
  exists ch h',
    create_grpc_channel pinned_runtime "self-signed.local:443" "token123" false
      "/tmp/log" (Some 0)
      [[("grpc.enable_retries", VInt 0);
        ("grpc.ssl_target_name_override", VStr "caller.example");
        ("grpc.max_receive_message_length", VInt 1024)]]
      = Some (inr ch, h') /\
    last_value "grpc.enable_retries" (transport_options ch) = Some (VInt 1) /\
    last_value "grpc.ssl_target_name_override" (transport_options ch)
      = Some (VStr "layer.internal") /\
    last_value "grpc.max_receive_message_length" (transport_options ch)
      = Some (VInt 1024).
Proof.
  destruct (factory_entries_shadow_caller pinned_runtime "self-signed.local:443"
              "token123" false "/tmp/log" (Some 0)
              [[("grpc.enable_retries", VInt 0);
                ("grpc.ssl_target_name_override", VStr "caller.example");
                ("grpc.max_receive_message_length", VInt 1024)]]
              _ _ eq_refl pinned_runtime_config)
    as (ch & h' & Hrun & Hfixed & Hname & _ & Hother).
  exists ch, h'. split; [exact Hrun|].
  split; [apply Hfixed; left; reflexivity|].
  split; [apply Hname; [reflexivity | discriminate]|].
  rewrite Hother; [reflexivity | | discriminate].
  simpl. intros Hin. repeat (destruct Hin as [Hin | Hin]; [discriminate Hin|]).
  destruct Hin.
Defined.

Lemma repeated_calls_do_not_accumulate_witness :
  exists r h1 h2,
    create_grpc_channel pinned_runtime "self-signed.local:443" "token123" false
      "/tmp/log" (Some 0) [[("grpc.max_receive_message_length", VInt 1024)]]
      = Some (r, h1) /\
    create_grpc_channel pinned_runtime "self-signed.local:443" "token123" false
      "/tmp/log" (Some 0) h1 = Some (r, h2).
Proof.
  apply (repeated_calls_do_not_accumulate pinned_runtime "self-signed.local:443"
           "token123" false "/tmp/log" 0
           [[("grpc.max_receive_message_length", VInt 1024)]]
           [("grpc.max_receive_message_length", VInt 1024)]).
  reflexivity.
Defined.

Lemma omitted_options_mean_empty_list_witness :
  exists r h1 h2,
    create_grpc_channel pinned_runtime "example.com:443" "token123" true
      "/tmp/log" (Some 0) [[]] = Some (r, h1) /\
    create_grpc_channel pinned_runtime "example.com:443" "token123" true
      "/tmp/log" None [[]] = Some (r, h2).
Proof.
  apply (omitted_options_mean_empty_list pinned_runtime "example.com:443"
           "token123" true "/tmp/log" 0 [[]]).
  reflexivity.
Defined.

Lemma trust_config_fields_by_mode_witness :
  (is_Some (Some "layer.internal") <-> false = false) /\
  (is_Some (Some (encode sample_pem)) <-> false = false \/ false = true).
Proof.
  exact (trust_config_fields_by_mode pinned_runtime "self-signed.local:443"
           false false _ pinned_runtime_config).
Defined.

(** * The default bundle can be read back *)

Lemma sextets_ok : forallb sextet_ok (map N.of_nat (seq 0 64)) = true.
Proof. vm_compute. reflexivity. Qed.

Lemma sextet_ok_lt (n : N) : (n < 64)%N -> sextet_ok n = true.
Proof.
  intros Hn. pose proof sextets_ok as H. rewrite forallb_forall in H.
  apply H. apply in_map_iff. exists (N.to_nat n). split; [lia|].
  apply in_seq. lia.
Qed.

Lemma b64_index_char (n : N) : (n < 64)%N -> b64_index (b64_char n) = n.
Proof.
  intros Hn. pose proof (sextet_ok_lt n Hn) as H. unfold sextet_ok in H.
  rewrite !andb_true_iff in H. destruct H as [[[H _] _] _].
  apply N.eqb_eq. exact H.
Qed.

Lemma b64_char_not (n : N) (c : ascii) :
  (n < 64)%N -> c = "="%char \/ c = "-"%char \/ c = "010"%char ->
  Ascii.eqb (b64_char n) c = false.
Proof.
  intros Hn Hc. pose proof (sextet_ok_lt n Hn) as H. unfold sextet_ok in H.
  rewrite !andb_true_iff, !negb_true_iff in H. destruct H as [[[_ H1] H2] H3].
  destruct Hc as [-> | [-> | ->]]; assumption.
Qed.

Lemma byte_of_to_N (b : Byte.byte) : byte_of_N (Byte.to_N b) = b.
Proof. unfold byte_of_N. rewrite Byte.of_to_N. reflexivity. Qed.

Ltac sextets := zify; Z.to_euclidean_division_equations; lia.

Lemma b64_group (a b c : Byte.byte) (rest : bytes) :
  standard_b64decode (standard_b64encode (a :: b :: c :: rest)) =
  a :: b :: c :: standard_b64decode (standard_b64encode rest).
Proof.
  pose proof (Byte.to_N_bounded a) as Ha.
  pose proof (Byte.to_N_bounded b) as Hb.
  pose proof (Byte.to_N_bounded c) as Hc.
  cbn [standard_b64encode standard_b64decode].
  set (x := Byte.to_N a) in *. set (y := Byte.to_N b) in *. set (z := Byte.to_N c) in *.
  rewrite !b64_index_char by sextets.
  rewrite !b64_char_not by (first [sextets | auto]).
  replace (x / 4 * 4 + (x mod 4 * 16 + y / 16) / 16)%N with x by sextets.
  replace ((x mod 4 * 16 + y / 16) mod 16 * 16 + (y mod 16 * 4 + z / 64) / 4)%N
    with y by sextets.
  replace ((y mod 16 * 4 + z / 64) mod 4 * 64 + z mod 64)%N with z by sextets.
  subst x y z. rewrite !byte_of_to_N. reflexivity.
Qed.

Lemma b64_roundtrip_bounded (n : nat) (bs : bytes) :
  length bs <= n -> standard_b64decode (standard_b64encode bs) = bs.
Proof.
  revert bs. induction n as [|n IH]; intros bs Hlen.
  - destruct bs; [reflexivity | simpl in Hlen; lia].
  - destruct bs as [|a [|b [|c rest]]].
    + reflexivity.
    + pose proof (Byte.to_N_bounded a) as Ha.
      cbn [standard_b64encode standard_b64decode].
      set (x := Byte.to_N a) in *.
      rewrite !b64_index_char by sextets.
      change (Ascii.eqb "="%char "="%char) with true. cbv iota.
      replace (x / 4 * 4 + (x mod 4 * 16) / 16)%N with x by sextets.
      subst x. rewrite byte_of_to_N. reflexivity.
    + pose proof (Byte.to_N_bounded a) as Ha.
      pose proof (Byte.to_N_bounded b) as Hb.
      cbn [standard_b64encode standard_b64decode].
      set (x := Byte.to_N a) in *. set (y := Byte.to_N b) in *.
      rewrite !b64_index_char by sextets.
      rewrite b64_char_not by (first [sextets | auto]).
      change (Ascii.eqb "="%char "="%char) with true. cbv iota.
      replace (x / 4 * 4 + (x mod 4 * 16 + y / 16) / 16)%N with x by sextets.
      replace ((x mod 4 * 16 + y / 16) mod 16 * 16 + (y mod 16 * 4) / 4)%N
        with y by sextets.
      subst x y. rewrite !byte_of_to_N. reflexivity.
    + rewrite b64_group, IH; [reflexivity|]. simpl in Hlen. lia.
Qed.

Lemma standard_b64encode_inj (a b : bytes) :
  standard_b64encode a = standard_b64encode b -> a = b.
Proof.
  intros H.
  rewrite <- (b64_roundtrip_bounded (length a) a), <- (b64_roundtrip_bounded (length b) b), H
    by lia.
  reflexivity.
Qed.

Lemma occurs_append (c : ascii) (a b : string) :
  occurs c (a +:+ b) = (occurs c a || occurs c b)%bool.
Proof.
  induction a as [|x a IH]; [reflexivity|].
  rewrite append_cons. simpl. rewrite IH, orb_assoc. reflexivity.
Qed.

Lemma standard_b64encode_plain (c : ascii) (bs : bytes) :
  c = "-"%char \/ c = "010"%char -> occurs c (standard_b64encode bs) = false.
Proof.
  intros Hc.
  assert (forall n, length bs <= n -> occurs c (standard_b64encode bs) = false) as H;
    [| apply (H (length bs)); lia].
  intros n. revert bs. induction n as [|n IH]; intros bs Hlen.
  - destruct bs; [reflexivity | simpl in Hlen; lia].
  - assert (Ascii.eqb "="%char c = false) as Heq
      by (destruct Hc as [-> | ->]; reflexivity).
    destruct bs as [|a [|b [|d rest]]];
      [reflexivity | | |];
      try (pose proof (Byte.to_N_bounded a)); try (pose proof (Byte.to_N_bounded b));
      try (pose proof (Byte.to_N_bounded d));
      cbn [standard_b64encode occurs];
      rewrite !b64_char_not by (first [sextets | tauto]);
      rewrite ?Heq; try reflexivity.
    cbn [orb]. apply IH. simpl in Hlen. lia.
Qed.

Lemma remove_newlines_append (a b : string) :
  remove_newlines (a +:+ b) = remove_newlines a +:+ remove_newlines b.
Proof.
  induction a as [|x a IH]; [reflexivity|].
  rewrite append_cons. simpl. destruct (Ascii.eqb x "010"%char);
    [exact IH | rewrite append_cons, IH; reflexivity].
Qed.

Lemma remove_newlines_plain (s : string) :
  occurs "010"%char s = false -> remove_newlines s = s.
Proof.
  induction s as [|x s IH]; [reflexivity|]. simpl.
  intros H. apply orb_false_iff in H as [Hx Hs].
  rewrite Hx, (IH Hs). reflexivity.
Qed.

Lemma remove_newlines_concat (ls : list string) :
  remove_newlines (String.concat EmptyString ls) =
  String.concat EmptyString (map remove_newlines ls).
Proof.
  induction ls as [|l ls IH]; [reflexivity|].
  change (map remove_newlines (l :: ls)) with (remove_newlines l :: map remove_newlines ls).
  rewrite !concat_cons, remove_newlines_append, IH. reflexivity.
Qed.

Lemma remove_newlines_join (parts : list string) :
  remove_newlines (str_join nl parts) =
  String.concat EmptyString (map remove_newlines parts).
Proof.
  induction parts as [|p parts IH]; [reflexivity|].
  change (map remove_newlines (p :: parts))
    with (remove_newlines p :: map remove_newlines parts).
  rewrite concat_cons, <- IH.
  destruct parts as [|q parts].
  - simpl str_join. rewrite append_empty_r. reflexivity.
  - rewrite str_join_cons by discriminate.
    rewrite !remove_newlines_append. reflexivity.
Qed.

Lemma concat_app (a b : list string) :
  String.concat EmptyString (a ++ b) =
  String.concat EmptyString a +:+ String.concat EmptyString b.
Proof.
  induction a as [|x a IH]; [reflexivity|].
  rewrite <- app_comm_cons, !concat_cons, IH, append_assoc. reflexivity.
Qed.

Lemma remove_newlines_PEM (der : bytes) :
  remove_newlines (DER_cert_to_PEM_cert der) =
  PEM_HEADER +:+ standard_b64encode der +:+ PEM_FOOTER.
Proof.
  unfold DER_cert_to_PEM_cert. set (f := standard_b64encode der).
  rewrite remove_newlines_join, !map_app, !concat_app.
  rewrite <- (remove_newlines_concat (lines64 _ _)), lines64_complete by lia.
  rewrite remove_newlines_plain by (apply standard_b64encode_plain; auto).
  reflexivity.
Qed.

Lemma remove_newlines_bundle (ders : list bytes) :
  remove_newlines (str_join nl (map DER_cert_to_PEM_cert ders)) =
  blocks_text (map standard_b64encode ders).
Proof.
  rewrite remove_newlines_join.
  induction ders as [|d ders IH]; [reflexivity|].
  cbn [map blocks_text]. rewrite concat_cons, IH, remove_newlines_PEM.
  rewrite !append_assoc. reflexivity.
Qed.

Lemma append_cancel_l (p a b : string) : p +:+ a = p +:+ b -> a = b.
Proof.
  induction p as [|x p IH]; [trivial|].
  rewrite !append_cons. intros [= H]. exact (IH H).
Qed.

Lemma dash_free_prefix (a b x y : string) :
  occurs "-"%char a = false -> occurs "-"%char b = false ->
  a +:+ String "-"%char x = b +:+ String "-"%char y -> a = b /\ x = y.
Proof.
  revert b. induction a as [|c a IH]; intros [|c' b] Ha Hb H.
  - inversion H. split; reflexivity.
  - rewrite append_cons in H. inversion H; subst.
    simpl in Hb. discriminate.
  - rewrite append_cons in H. inversion H; subst.
    simpl in Ha. discriminate.
  - rewrite !append_cons in H. inversion H; subst.
    simpl in Ha, Hb. apply orb_false_iff in Ha as [_ Ha], Hb as [_ Hb].
    destruct (IH b Ha Hb H2) as [-> ->]. split; reflexivity.
Qed.

Lemma blocks_text_inj (fs gs : list string) :
  Forall (fun f => occurs "-"%char f = false) fs ->
  Forall (fun g => occurs "-"%char g = false) gs ->
  blocks_text fs = blocks_text gs -> fs = gs.
Proof.
  intros Hfs. revert gs. induction Hfs as [|f fs Hf Hfs IH]; intros gs Hgs H.
  - destruct gs as [|g gs]; [reflexivity | discriminate H].
  - destruct Hgs as [|g gs Hg Hgs]; [discriminate H|].
    cbn [blocks_text] in H. apply append_cancel_l in H.
    change (PEM_FOOTER +:+ blocks_text fs)
      with (String "-"%char ("----END CERTIFICATE-----" +:+ blocks_text fs)) in H.
    change (PEM_FOOTER +:+ blocks_text gs)
      with (String "-"%char ("----END CERTIFICATE-----" +:+ blocks_text gs)) in H.
    apply dash_free_prefix in H as [-> H]; [|assumption..].
    apply append_cancel_l in H. rewrite (IH gs Hgs H). reflexivity.
Qed.

Lemma map_standard_b64encode_inj (a b : list bytes) :
  map standard_b64encode a = map standard_b64encode b -> a = b.
Proof.
  revert b. induction a as [|x a IH]; intros [|y b] H; try discriminate.
  - reflexivity.
  - inversion H as [[Hx Hrest]].
    rewrite (standard_b64encode_inj _ _ Hx), (IH b Hrest). reflexivity.
Qed.

Lemma encode_inj (s t : string) : encode s = encode t -> s = t.
Proof.
  intros H. rewrite <- (string_of_list_byte_of_string s),
    <- (string_of_list_byte_of_string t).
  unfold encode in H. rewrite H. reflexivity.
Qed.

Lemma default_bundle_determines_store (rt1 rt2 : Runtime) :
  _load_default_ssl_certs rt1 = _load_default_ssl_certs rt2 ->
  get_ca_certs rt1 = get_ca_certs rt2.
Proof.
  unfold _load_default_ssl_certs. intros H. apply encode_inj in H.
  apply (f_equal remove_newlines) in H. rewrite !remove_newlines_bundle in H.
  apply map_standard_b64encode_inj, blocks_text_inj; [| |exact H];
    apply Forall_forall; intros f Hf; apply list_elem_of_In, in_map_iff in Hf;
    destruct Hf as (d & <- & _); apply standard_b64encode_plain; auto.
Qed.

(** X8. With [do_verify_ssl=True] and [do_force_cadata_load=True] the
    config depends on the certificates the default context lists and on
    nothing else, and it determines them: two calls return the same
    config exactly when the two stores hold the same DER certificates in
    the same order. No certificate is lost, merged or altered by the PEM
    encoding and the joining. *)
Theorem forced_anchor_config_determines_store (rt1 rt2 : Runtime)
    (address1 address2 : string) :
  create_grpc_ssl_config rt1 address1 true true =
    create_grpc_ssl_config rt2 address2 true true <->
  get_ca_certs rt1 = get_ca_certs rt2.
Proof.
  split.
  - intros [= H]. apply default_bundle_determines_store. exact H.
  - intros H. unfold create_grpc_ssl_config, _load_default_ssl_certs.
    rewrite H. reflexivity.
Qed.

(** * The forced anchor bundle *)

Lemma length_append (a b : string) :
  String.length (a +:+ b) = String.length a + String.length b.
Proof.
  induction a as [|x a IH]; [reflexivity|].
  rewrite append_cons. simpl. rewrite IH. reflexivity.
Qed.

Lemma append_cancel_r (p a b : string) : a +:+ p = b +:+ p -> a = b.
Proof.
  revert b. induction a as [|x a IH]; intros [|y b] H.
  - reflexivity.
  - apply (f_equal String.length) in H.
    rewrite !length_append in H. simpl in H. lia.
  - apply (f_equal String.length) in H.
    rewrite !length_append in H. simpl in H. lia.
  - rewrite !append_cons in H. inversion H as [[Hx Hrest]].
    rewrite (IH b Hrest). reflexivity.
Qed.

(** The body of a PEM block is the base64 text of its certificate, cut
    into lines. *)
Lemma DER_cert_to_PEM_cert_body (der : bytes) :
  exists body,
    DER_cert_to_PEM_cert der = PEM_HEADER +:+ nl +:+ body +:+ PEM_FOOTER +:+ nl /\
    remove_newlines body = standard_b64encode der.
Proof.
  destruct (DER_cert_to_PEM_cert_block der) as [body Hbody].
  exists body. split; [exact Hbody|].
  pose proof (remove_newlines_PEM der) as H. rewrite Hbody in H.
  rewrite !remove_newlines_append in H.
  change (remove_newlines PEM_HEADER) with PEM_HEADER in H.
  change (remove_newlines nl) with EmptyString in H.
  change (remove_newlines PEM_FOOTER) with PEM_FOOTER in H.
  change (EmptyString +:+ remove_newlines body +:+ PEM_FOOTER +:+ EmptyString)
    with (remove_newlines body +:+ PEM_FOOTER +:+ EmptyString) in H.
  rewrite append_empty_r in H.
  apply append_cancel_l, append_cancel_r in H. exact H.
Qed.

(** C9 (amended). With [do_verify_ssl=True] and
    [do_force_cadata_load=True] the config has no [hostname_override]
    and its [cadata] is present: the PEM blocks of the certificates the
    default context lists, one block per certificate and in their order,
    joined by newlines. The block of a certificate is the header line, a
    body and the footer line, and its body, line feeds apart, is the
    base64 text of that certificate, from which the certificate is read
    back. The bytes are non-empty when the context lists at least one
    certificate. *)
Theorem forced_anchor_bundle (rt : Runtime) (address : string) :
  create_grpc_ssl_config rt address true true =
    inr {| cadata :=
             Some (encode
                     (str_join nl (map DER_cert_to_PEM_cert (get_ca_certs rt))));
           hostname_override := None |} /\
  Forall
    (fun der =>
       exists body,
         DER_cert_to_PEM_cert der
           = PEM_HEADER +:+ nl +:+ body +:+ PEM_FOOTER +:+ nl /\
         remove_newlines body = standard_b64encode der /\
         standard_b64decode (remove_newlines body) = der)
    (get_ca_certs rt) /\
  (get_ca_certs rt <> [] ->
   encode (str_join nl (map DER_cert_to_PEM_cert (get_ca_certs rt))) <> []).
Proof.
  split; [reflexivity|]. split.
  - apply Forall_forall. intros der _.
    destruct (DER_cert_to_PEM_cert_body der) as (body & Hblock & Hbody).
    exists body. split; [exact Hblock|]. split; [exact Hbody|].
    rewrite Hbody. apply (b64_roundtrip_bounded (length der)). lia.
  - intros Hstore.
    destruct (str_join_nonempty nl (map DER_cert_to_PEM_cert (get_ca_certs rt)))
      as (c & rest & ->).
    + destruct (get_ca_certs rt); [congruence | discriminate].
    + intros p Hp. apply in_map_iff in Hp. destruct Hp as (der & <- & _).
      apply pem_block_nonempty, DER_cert_to_PEM_cert_block.
    + apply encode_nonempty.
Qed.

Lemma forced_anchor_bundle_witness :
  exists data,
    create_grpc_ssl_config pinned_runtime "example.com:443" true true =
      inr {| cadata := Some data; hostname_override := None |} /\
    data <> [].
Proof.
  destruct (forced_anchor_bundle pinned_runtime "example.com:443")
    as (Hcfg & _ & Hne).
  eexists. split; [exact Hcfg|]. apply Hne. discriminate.
Defined.
